(** * tgbot: a Telegram bot that tracks watched movies and TV shows

    Shallow embedding of the bot's message dispatcher, its handlers, the
    conversation tracker, the [watched] table and the popularity ranking,
    together with the properties its specification states about them.

    Go strings are byte strings: they are modelled as [string], one [ascii]
    per byte.  Go's [int] and [int64] are modelled as [Z]; the only
    arithmetic the program does on them is [i+1] on a loop index and the
    comparison [episode < 0].  [float64] is modelled as [spec_float] with the
    IEEE comparison [SFltb]. *)

From Stdlib Require Import ZArith Floats.SpecFloat String Ascii.
From Stdlib Require Import Sorting.Sorted DecimalString DecimalPos.
From stdpp Require Import gmap strings list fin_maps.

Local Open Scope string_scope.
Local Open Scope Z_scope.

(** ** The Go standard library functions the program calls *)

Module Go.

(** The numeric value of a byte. *)
Definition byte (c : ascii) : Z := Z.of_N (N_of_ascii c).

(** [len(s)]: the number of bytes. *)
Definition len (s : string) : Z := Z.of_nat (String.length s).

(** [s[:n]] and [s[n:]] on an index already known to be in range. *)
Fixpoint sliceTo (n : nat) (s : string) : string :=
  match n, s with
  | S n', String c s' => String c (sliceTo n' s')
  | _, _ => EmptyString
  end.

Fixpoint sliceFrom (n : nat) (s : string) : string :=
  match n, s with
  | S n', String _ s' => sliceFrom n' s'
  | _, _ => s
  end.

(** [strings.HasPrefix] and [strings.TrimPrefix]. *)
Fixpoint HasPrefix (s pre : string) {struct pre} : bool :=
  match pre, s with
  | EmptyString, _ => true
  | String a pre', String b s' => Ascii.eqb a b && HasPrefix s' pre'
  | String _ _, EmptyString => false
  end.

Definition TrimPrefix (s pre : string) : string :=
  if HasPrefix s pre then sliceFrom (String.length pre) s else s.

(** [strings.Join]. *)
Fixpoint Join (elems : list string) (sep : string) : string :=
  match elems with
  | [] => EmptyString
  | [e] => e
  | e :: rest => e +:+ sep +:+ Join rest sep
  end.

(** *** UTF-8 decoding, as [for _, r := range s] and [utf8.DecodeRune] do it *)

Definition RuneError : Z := 0xFFFD.

(** A continuation byte. *)
Definition cont (b : Z) : bool := (0x80 <=? b) && (b <=? 0xBF).

(** The range the second byte has to lie in, by first byte (the
    [acceptRanges] table of package [utf8]). *)
Definition accept (b0 b1 : Z) : bool :=
  if b0 =? 0xE0 then (0xA0 <=? b1) && (b1 <=? 0xBF)
  else if b0 =? 0xED then (0x80 <=? b1) && (b1 <=? 0x9F)
  else if b0 =? 0xF0 then (0x90 <=? b1) && (b1 <=? 0xBF)
  else if b0 =? 0xF4 then (0x80 <=? b1) && (b1 <=? 0x8F)
  else cont b1.

Definition rune2 (b0 b1 : Z) : Z :=
  Z.lor (Z.shiftl (Z.land b0 0x1F) 6) (Z.land b1 0x3F).

Definition rune3 (b0 b1 b2 : Z) : Z :=
  Z.lor (Z.shiftl (Z.land b0 0x0F) 12)
        (Z.lor (Z.shiftl (Z.land b1 0x3F) 6) (Z.land b2 0x3F)).

Definition rune4 (b0 b1 b2 b3 : Z) : Z :=
  Z.lor (Z.shiftl (Z.land b0 0x07) 18)
        (Z.lor (Z.shiftl (Z.land b1 0x3F) 12)
               (Z.lor (Z.shiftl (Z.land b2 0x3F) 6) (Z.land b3 0x3F))).

(** A decoded rune with the bytes it was read from.  An invalid or truncated
    encoding decodes to [RuneError] over exactly one byte. *)
Record Rune := mkRune { code : Z; bytes : string }.

Definition str1 (c0 : ascii) : string := String c0 EmptyString.
Definition str2 (c0 c1 : ascii) : string := String c0 (str1 c1).
Definition str3 (c0 c1 c2 : ascii) : string := String c0 (str2 c1 c2).
Definition str4 (c0 c1 c2 c3 : ascii) : string := String c0 (str3 c1 c2 c3).

Fixpoint runes (s : string) : list Rune :=
  match s with
  | EmptyString => []
  | String c0 s1 =>
    let b0 := byte c0 in
    let invalid := mkRune RuneError (str1 c0) :: runes s1 in
    if b0 <? 0x80 then mkRune b0 (str1 c0) :: runes s1
    else if (b0 <? 0xC2) || (0xF4 <? b0) then invalid
    else
      match s1 with
      | EmptyString => invalid
      | String c1 s2 =>
        let b1 := byte c1 in
        if negb (accept b0 b1) then invalid
        else if b0 <? 0xE0 then mkRune (rune2 b0 b1) (str2 c0 c1) :: runes s2
        else
          match s2 with
          | EmptyString => invalid
          | String c2 s3 =>
            let b2 := byte c2 in
            if negb (cont b2) then invalid
            else if b0 <? 0xF0 then
              mkRune (rune3 b0 b1 b2) (str3 c0 c1 c2) :: runes s3
            else
              match s3 with
              | EmptyString => invalid
              | String c3 s4 =>
                let b3 := byte c3 in
                if negb (cont b3) then invalid
                else mkRune (rune4 b0 b1 b2 b3) (str4 c0 c1 c2 c3) :: runes s4
              end
          end
      end
  end.

(** [utf8.ValidString]: no position decodes to the one-byte [RuneError]. *)
Definition is_invalid (r : Rune) : bool :=
  (code r =? RuneError) && (String.length (bytes r) =? 1)%nat.

Definition ValidString (s : string) : bool :=
  forallb (fun r => negb (is_invalid r)) (runes s).

(** [unicode.IsSpace]. *)
Definition IsSpace (r : Z) : bool :=
  ((0x09 <=? r) && (r <=? 0x0D)) || (r =? 0x20) || (r =? 0x85) || (r =? 0xA0)
  || (r =? 0x1680) || ((0x2000 <=? r) && (r <=? 0x200A))
  || (r =? 0x2028) || (r =? 0x2029) || (r =? 0x202F) || (r =? 0x205F)
  || (r =? 0x3000).

(** [strings.FieldsFunc]: [cur] is the field being read, [None] between
    fields (the [start < 0] of the Go loop). *)
Fixpoint fieldsFrom (f : Z -> bool) (rs : list Rune) (cur : option string)
  : list string :=
  match rs with
  | [] => match cur with Some w => [w] | None => [] end
  | r :: rs' =>
    if f (code r) then
      match cur with
      | Some w => w :: fieldsFrom f rs' None
      | None => fieldsFrom f rs' None
      end
    else
      match cur with
      | Some w => fieldsFrom f rs' (Some (w +:+ bytes r))
      | None => fieldsFrom f rs' (Some (bytes r))
      end
  end.

Definition FieldsFunc (s : string) (f : Z -> bool) : list string :=
  fieldsFrom f (runes s) None.

(** [strings.Fields]. *)
Definition Fields (s : string) : list string := FieldsFunc s IsSpace.

(** *** [strconv.Atoi] and the [%d] verb, for a 64-bit [int] *)

Definition maxInt : Z := 2 ^ 63 - 1.
Definition minInt : Z := - 2 ^ 63.

Definition digit (c : ascii) : option Z :=
  let b := byte c in
  if (0x30 <=? b) && (b <=? 0x39) then Some (b - 0x30) else None.

(** The value of a string of decimal digits read after [acc]; [None] when a
    byte is not a digit. *)
Fixpoint digits (s : string) (acc : Z) : option Z :=
  match s with
  | EmptyString => Some acc
  | String c s' =>
    match digit c with
    | Some d => digits s' (acc * 10 + d)
    | None => None
    end
  end.

Definition Atoi (s : string) : option Z :=
  match s with
  | EmptyString => None
  | String c rest =>
    let neg := (byte c =? 0x2D) in
    let body := if neg || (byte c =? 0x2B) then rest else s in
    match body with
    | EmptyString => None
    | _ =>
      match digits body 0 with
      | Some n =>
        let v := if neg then - n else n in
        if (minInt <=? v) && (v <=? maxInt) then Some v else None
      | None => None
      end
    end
  end.

Definition Itoa (n : Z) : string := NilZero.string_of_int (Z.to_int n).

End Go.

Import Go.

(** ** Data model *)

(** [Movie]: a row of the [watched] table. *)
Module Movie.
Record t := mk {
  ID : Z;
  Title : string;
  MediaType : string;
  TMDBID : Z;
  UserID : Z;
  WatchedAt : Z;
  CurrentEpisode : Z
}.
End Movie.

(** An element of [TMDBResponse.Results]. *)
Module Result.
Record t := mk {
  ID : Z;
  Title : string;
  Name : string;
  MediaType : string;
  ReleaseDate : string;
  FirstAirDate : string;
  Overview : string;
  PosterPath : string;
  Popularity : spec_float
}.

Definition withMediaType (m : string) (r : t) : t :=
  mk (ID r) (Title r) (Name r) m (ReleaseDate r) (FirstAirDate r)
     (Overview r) (PosterPath r) (Popularity r).
End Result.

Record TMDBResponse := { Results : list Result.t }.

Module ConversationState.
Record t := mk {
  AwaitingEpisode : bool;
  TMDBID : Z;
  Title : string;
  MediaType : string
}.
End ConversationState.

(** What the program does to the outside, in order: messages handed to
    [bot.Send], requests to the catalog, lines written with [log.Printf]. *)
Inductive Event :=
| SendMessage (chatID : Z) (text : string)
| SendPhoto (chatID : Z) (photoURL caption : string)
| SearchMulti (query : string)
| PopularMovies
| PopularTV
| LogPrintf (line : string).

(** The state the handlers share: the global [conversationStates] map, the
    rows of [watched] in rowid order, and the trace of events. *)
Record World := mkWorld {
  conversationStates : gmap Z ConversationState.t;
  watched : list Movie.t;
  trace : list Event
}.

(** What the outside answers while one message is handled.  [None] stands
    for a request that returned an error ([http.Get] or the JSON decoder);
    [queryFails] and [execFails] make [db.Query]/[QueryRow] and [db.Exec]
    return an error without touching the table. *)
Record Env := mkEnv {
  searchResponse : string -> option TMDBResponse;
  popularMoviesResponse : option TMDBResponse;
  popularTVResponse : option TMDBResponse;
  now : Z;
  formatDate : Z -> string;
  queryFails : bool;
  execFails : bool
}.

Definition emit (e : Event) (w : World) : World :=
  mkWorld (conversationStates w) (watched w) (trace w ++ [e]).

Definition sendMessage (chatID : Z) (text : string) (w : World) : World :=
  emit (SendMessage chatID text) w.

Definition sendPhoto (chatID : Z) (photoURL caption : string) (w : World)
  : World :=
  emit (SendPhoto chatID photoURL caption) w.

Definition logPrintf (line : string) (w : World) : World :=
  emit (LogPrintf line) w.

Definition setState (chatID : Z) (st : ConversationState.t) (w : World)
  : World :=
  mkWorld (<[chatID := st]> (conversationStates w)) (watched w) (trace w).

Definition deleteState (chatID : Z) (w : World) : World :=
  mkWorld (delete chatID (conversationStates w)) (watched w) (trace w).

(** ** The [watched] table *)

(** [INSERT INTO watched (...) VALUES (?, ?, ?, ?, ?, ?)]: the new row gets
    the next rowid.  [None] is the error return of [db.Exec]. *)
Definition insertWatched (env : Env) (title mediaType : string)
    (tmdbID userID episode : Z) (w : World) : option World :=
  if execFails env then None
  else
    let row := Movie.mk (Z.of_nat (length (watched w)) + 1) title mediaType
                        tmdbID userID (now env) episode in
    Some (mkWorld (conversationStates w) (watched w ++ [row]) (trace w)).

Definition matchesTitle (userID : Z) (title : string) (m : Movie.t) : bool :=
  (Movie.UserID m =? userID) && String.eqb (Movie.Title m) title.

(** [SELECT tmdb_id, media_type FROM watched WHERE user_id = ? AND title = ?]
    read with [QueryRow(...).Scan]: the first matching row, [None] when
    there is none ([sql.ErrNoRows]) or the query failed. *)
Definition selectByTitle (env : Env) (userID : Z) (title : string)
    (w : World) : option (Z * string) :=
  if queryFails env then None
  else
    match find (matchesTitle userID title) (watched w) with
    | Some m => Some (Movie.TMDBID m, Movie.MediaType m)
    | None => None
    end.

Definition setEpisode (episode : Z) (m : Movie.t) : Movie.t :=
  Movie.mk (Movie.ID m) (Movie.Title m) (Movie.MediaType m) (Movie.TMDBID m)
           (Movie.UserID m) (Movie.WatchedAt m) episode.

(** [UPDATE watched SET current_episode = ? WHERE user_id = ? AND tmdb_id = ?] *)
Definition updateEpisode (env : Env) (episode userID tmdbID : Z) (w : World)
  : option World :=
  if execFails env then None
  else
    let upd m :=
      if (Movie.UserID m =? userID) && (Movie.TMDBID m =? tmdbID)
      then setEpisode episode m else m in
    Some (mkWorld (conversationStates w) (map upd (watched w)) (trace w)).

(** [ORDER BY watched_at DESC].  SQL leaves the order of rows with the same
    time open; here the row inserted later comes first. *)
Fixpoint insertByTime (m : Movie.t) (l : list Movie.t) : list Movie.t :=
  match l with
  | [] => [m]
  | x :: l' =>
    if Movie.WatchedAt x <? Movie.WatchedAt m then m :: l
    else x :: insertByTime m l'
  end.

Definition selectByUser (env : Env) (userID : Z) (w : World)
  : option (list Movie.t) :=
  if queryFails env then None
  else Some (foldr insertByTime []
               (filter (fun m => Movie.UserID m = userID) (watched w))).

(** ** The catalog client *)

Definition searchTMDB (env : Env) (query : string) (w : World)
  : option TMDBResponse * World :=
  (searchResponse env query, emit (SearchMulti query) w).

Definition stamp (mediaType : string) (response : TMDBResponse)
  : TMDBResponse :=
  {| Results := map (Result.withMediaType mediaType) (Results response) |}.

Definition getTopMovies (env : Env) (w : World)
  : option TMDBResponse * World :=
  (stamp "movie" <$> popularMoviesResponse env, emit PopularMovies w).

Definition getTopTVShows (env : Env) (w : World)
  : option TMDBResponse * World :=
  (stamp "tv" <$> popularTVResponse env, emit PopularTV w).

(** ** Ranking *)

Definition popLt (a b : Result.t) : bool :=
  SFltb (Result.Popularity a) (Result.Popularity b).

(** One step of the inner loop: compare slots [j] and [j+1] and exchange
    them when the left one is less popular. *)
Definition swapStep (results : list Result.t) (j : nat) : list Result.t :=
  match results !! j, results !! S j with
  | Some a, Some b =>
    if popLt a b then <[S j := a]> (<[j := b]> results) else results
  | _, _ => results
  end.

(** The inner loop [for j := 0; j < len(results)-i-1; j++]. *)
Definition bubblePass (results : list Result.t) (i : nat) : list Result.t :=
  fold_left swapStep (seq 0 (length results - i - 1)) results.

(** The outer loop [for i := 0; i < len(results)-1; i++]. *)
Definition sortResultsByPopularity (results : list Result.t)
  : list Result.t :=
  fold_left bubblePass (seq 0 (length results - 1)) results.

(** ** Formatting *)

(** [limitString]; [None] is the run-time panic of [s[:n]] on a negative
    [n]. *)
Definition limitString (s : string) (n : Z) : option string :=
  if len s <=? n then Some s
  else if n <? 0 then None
  else Some (sliceTo (Z.to_nat n) s +:+ "...").

Definition posterURL (posterPath : string) : string :=
  "https://image.tmdb.org/t/p/w500" +:+ posterPath.

(** The body of the loops of [handleSearch] and [handleTop]: one numbered
    entry, as a photo when the result has a poster. *)
Definition sendEntry (chatID : Z) (i : nat) (result : Result.t) (w : World)
  : World :=
  let isTV := String.eqb (Result.MediaType result) "tv" in
  let title := if isTV then Result.Name result else Result.Title result in
  let date :=
    if isTV then Result.FirstAirDate result else Result.ReleaseDate result in
  let mediaType := if isTV then "сериал" else "фильм" in
  let message :=
    Itoa (Z.of_nat i + 1) +:+ ". *" +:+ title +:+ "* (" +:+ mediaType +:+ ", "
      +:+ date +:+ ") - "
      +:+ default "" (limitString (Result.Overview result) 100) in
  if negb (String.eqb (Result.PosterPath result) "")
  then sendPhoto chatID (posterURL (Result.PosterPath result)) message w
  else sendMessage chatID message w.

(** [for i, result := range results { ... }] from index [i] on. *)
Fixpoint sendEntries (chatID : Z) (i : nat) (results : list Result.t)
    (w : World) : World :=
  match results with
  | [] => w
  | result :: rest => sendEntries chatID (S i) rest (sendEntry chatID i result w)
  end.

(** ** Handlers *)

Definition msgAddUsage : string :=
  "Укажите название фильма или сериала: /add <название>".
Definition msgNothingFound (query : string) : string :=
  "Ничего не найдено для: " +:+ query.
Definition msgAskEpisode (title : string) : string :=
  "Вы добавляете сериал *" +:+ title
    +:+ "*. Укажите номер последней просмотренной серии (например, 5):".
Definition msgSaveError : string := "Ошибка сохранения в базу данных".
Definition logDatabaseError : string := "Ошибка базы данных: %s".
Definition msgAdded (title mediaType : string) : string :=
  "Добавлено *" +:+ title +:+ "* (" +:+ mediaType
    +:+ ") в ваш список просмотренного!".
Definition msgBadEpisode : string :=
  "Пожалуйста, укажите корректный номер серии (целое число, например, 5):".
Definition msgAddedShow (title : string) (episode : Z) : string :=
  "Добавлено *" +:+ title +:+ "* (сериал, серия " +:+ Itoa episode
    +:+ ") в ваш список просмотренного!".
Definition msgUpdateUsage : string :=
  "Укажите название сериала и номер серии: /update <название> <номер серии>".
Definition msgUpdateBadEpisode : string :=
  "Укажите корректный номер серии (целое число, например, 5)".
Definition msgNotInList : string :=
  "Сериал не найден в вашем списке просмотренного".
Definition msgNotAShow : string :=
  "Это не сериал. Используйте /update только для сериалов".
Definition msgUpdateError : string := "Ошибка обновления номера серии".
Definition msgUpdated (title : string) (episode : Z) : string :=
  "Обновлено: *" +:+ title +:+ "* (сериал, серия " +:+ Itoa episode +:+ ")".

Definition handleAdd (env : Env) (chatID : Z) (query : string) (w : World)
  : World :=
  if String.eqb query "" then sendMessage chatID msgAddUsage w
  else
    let '(results, w) := searchTMDB env query w in
    match Results <$> results with
    | None | Some [] => sendMessage chatID (msgNothingFound query) w
    | Some (result :: _) =>
      let isTV := String.eqb (Result.MediaType result) "tv" in
      let title := if isTV then Result.Name result else Result.Title result in
      let mediaType := if isTV then "сериал" else "фильм" in
      if isTV then
        let w :=
          setState chatID
            (ConversationState.mk true (Result.ID result) title
                                  (Result.MediaType result)) w in
        sendMessage chatID (msgAskEpisode title) w
      else
        match insertWatched env title (Result.MediaType result)
                            (Result.ID result) chatID 0 w with
        | None =>
          logPrintf logDatabaseError (sendMessage chatID msgSaveError w)
        | Some w =>
          let message := msgAdded title mediaType in
          if negb (String.eqb (Result.PosterPath result) "")
          then sendPhoto chatID (posterURL (Result.PosterPath result)) message w
          else sendMessage chatID message w
        end
    end.

Definition handleEpisodeInput (env : Env) (chatID : Z) (text : string)
    (state : ConversationState.t) (w : World) : World :=
  match Atoi text with
  | None => sendMessage chatID msgBadEpisode w
  | Some episode =>
    if episode <? 0 then sendMessage chatID msgBadEpisode w
    else
      match insertWatched env (ConversationState.Title state)
                          (ConversationState.MediaType state)
                          (ConversationState.TMDBID state) chatID episode w with
      | None => logPrintf logDatabaseError (sendMessage chatID msgSaveError w)
      | Some w =>
        let w := deleteState chatID w in
        let '(results, w) := searchTMDB env (ConversationState.Title state) w in
        let message := msgAddedShow (ConversationState.Title state) episode in
        match Results <$> results with
        | Some (first :: _) =>
          if (Result.ID first =? ConversationState.TMDBID state)
             && negb (String.eqb (Result.PosterPath first) "")
          then sendPhoto chatID (posterURL (Result.PosterPath first)) message w
          else sendMessage chatID message w
        | _ => sendMessage chatID message w
        end
      end
  end.

Definition listLine (env : Env) (count : nat) (m : Movie.t) : string :=
  if String.eqb (Movie.MediaType m) "tv" then
    Itoa (Z.of_nat count) +:+ ". *" +:+ Movie.Title m +:+ "* (сериал, серия "
      +:+ Itoa (Movie.CurrentEpisode m) +:+ ") - Просмотрено "
      +:+ formatDate env (Movie.WatchedAt m) +:+ String "010" ""
  else
    Itoa (Z.of_nat count) +:+ ". *" +:+ Movie.Title m
      +:+ "* (фильм) - Просмотрено "
      +:+ formatDate env (Movie.WatchedAt m) +:+ String "010" "".

Fixpoint listLines (env : Env) (count : nat) (rows : list Movie.t) : string :=
  match rows with
  | [] => ""
  | m :: rest => listLine env (S count) m +:+ listLines env (S count) rest
  end.

Definition handleList (env : Env) (chatID : Z) (w : World) : World :=
  match selectByUser env chatID w with
  | None =>
    logPrintf logDatabaseError (sendMessage chatID "Ошибка получения списка" w)
  | Some [] => sendMessage chatID "Ваш список просмотренного пуст" w
  | Some rows =>
    sendMessage chatID
      ("Ваш список просмотренного:" +:+ String "010" "" +:+ listLines env 0 rows)
      w
  end.

Definition handleSearch (env : Env) (chatID : Z) (query : string) (w : World)
  : World :=
  if String.eqb query "" then
    sendMessage chatID "Укажите поисковый запрос: /search <название>" w
  else
    let '(results, w) := searchTMDB env query w in
    match Results <$> results with
    | None | Some [] => sendMessage chatID (msgNothingFound query) w
    | Some rs => sendEntries chatID 0 (take (Nat.min 5 (length rs)) rs) w
    end.

Definition handleTop (env : Env) (chatID : Z) (w : World) : World :=
  let '(movies, w) := getTopMovies env w in
  match movies with
  | None =>
    logPrintf "Ошибка получения топ-фильмов: %s"
      (sendMessage chatID "Ошибка получения топ-фильмов" w)
  | Some movies =>
    let '(shows, w) := getTopTVShows env w in
    match shows with
    | None =>
      logPrintf "Ошибка получения топ-сериалов: %s"
        (sendMessage chatID "Ошибка получения топ-сериалов" w)
    | Some shows =>
      let allResults := (Results movies ++ Results shows)%list in
      if (length allResults =? 0)%nat then
        sendMessage chatID "Топ-фильмы и сериалы не найдены" w
      else
        let allResults := sortResultsByPopularity allResults in
        sendEntries chatID 0
          (take (Nat.min 20 (length allResults)) allResults) w
    end
  end.

(** [parts[:len(parts)-1]] and [parts[len(parts)-1]]. *)
Definition allButLast (parts : list string) : list string :=
  take (length parts - 1) parts.

(** What the first part of [handleUpdate] makes of its argument: the usage
    reply, the bad-episode reply, or the title to look up and the episode. *)
Inductive UpdateArgs :=
| Usage
| BadEpisode
| Args (title : string) (episode : Z).

Definition parseUpdate (query : string) : UpdateArgs :=
  if String.eqb query "" then Usage
  else
    let parts := Fields query in
    if (length parts <? 2)%nat then Usage
    else
      match last parts ≫= Atoi with
      | None => BadEpisode
      | Some episode =>
        if episode <? 0 then BadEpisode
        else Args (Join (allButLast parts) " ") episode
      end.

Definition handleUpdate (env : Env) (chatID : Z) (query : string) (w : World)
  : World :=
  match parseUpdate query with
  | Usage => sendMessage chatID msgUpdateUsage w
  | BadEpisode => sendMessage chatID msgUpdateBadEpisode w
  | Args title episode =>
    match selectByTitle env chatID title w with
    | None => sendMessage chatID msgNotInList w
    | Some (tmdbID, mediaType) =>
      if negb (String.eqb mediaType "tv")
      then sendMessage chatID msgNotAShow w
      else
        match updateEpisode env episode chatID tmdbID w with
        | None =>
          logPrintf logDatabaseError (sendMessage chatID msgUpdateError w)
        | Some w => sendMessage chatID (msgUpdated title episode) w
        end
    end
  end.

(** ** The dispatcher: the body of the update loop of [main] *)

Definition msgStart : string :=
  "Добро пожаловать в Movie Tracker Bot!" +:+ String "010" "" +:+
  "Команды:" +:+ String "010" "" +:+
  "/add - Добавить просмотренный фильм или сериал" +:+ String "010" "" +:+
  "/list - Показать список просмотренного" +:+ String "010" "" +:+
  "/search - Найти фильм или сериал" +:+ String "010" "" +:+
  "/top - Топ-20 фильмов и сериалов за неделю" +:+ String "010" "" +:+
  "/update - Обновить номер серии для сериала".
Definition msgUnknown : string :=
  "Неизвестная команда. Используйте /add, /list, /search, /top или /update".

(** The pending state that makes the loop take the episode branch:
    [state, exists := conversationStates[chatID]; exists && state.AwaitingEpisode]. *)
Definition awaiting (chatID : Z) (w : World) : option ConversationState.t :=
  match conversationStates w !! chatID with
  | Some state =>
    if ConversationState.AwaitingEpisode state then Some state else None
  | None => None
  end.

Definition command (env : Env) (chatID : Z) (text : string) (w : World)
  : World :=
  if String.eqb text "/start" then sendMessage chatID msgStart w
  else if HasPrefix text "/add" then
    handleAdd env chatID (TrimPrefix text "/add ") w
  else if String.eqb text "/list" then handleList env chatID w
  else if HasPrefix text "/search" then
    handleSearch env chatID (TrimPrefix text "/search ") w
  else if String.eqb text "/top" then handleTop env chatID w
  else if HasPrefix text "/update" then
    handleUpdate env chatID (TrimPrefix text "/update ") w
  else sendMessage chatID msgUnknown w.

Definition dispatch (env : Env) (chatID : Z) (text : string) (w : World)
  : World :=
  match awaiting chatID w with
  | Some state => handleEpisodeInput env chatID text state w
  | None => command env chatID text w
  end.

(** An update of the Telegram channel; [Message] is [nil] for updates that
    are not messages. *)
Record Update := { Message : option (Z * string) }.

Definition handleUpdateEvent (env : Env) (update : Update) (w : World)
  : World :=
  match Message update with
  | None => w
  | Some (chatID, text) => dispatch env chatID text w
  end.

(** The loop over the channel, each update with what the outside answers
    while it is handled. *)
Definition run (updates : list (Env * Update)) (w : World) : World :=
  fold_left (fun w eu => handleUpdateEvent (fst eu) (snd eu) w) updates w.

(** ** Vocabulary of the properties *)

(** An answer that [handleEpisodeInput] rejects: [strconv.Atoi] fails or
    the number is negative. *)
Definition invalidEpisode (text : string) : bool :=
  match Atoi text with
  | None => true
  | Some episode => episode <? 0
  end.

(** The updates of one sender, each with what the outside answers. *)
Definition messagesFrom (chatID : Z) (inputs : list (Env * string))
  : list (Env * Update) :=
  map (fun et => (fst et, {| Message := Some (chatID, snd et) |})) inputs.

(** The row [handleEpisodeInput] builds from the pending state and the
    episode number. *)
Definition episodeRow (env : Env) (chatID : Z) (state : ConversationState.t)
    (episode : Z) (w : World) : Movie.t :=
  Movie.mk (Z.of_nat (length (watched w)) + 1)
           (ConversationState.Title state) (ConversationState.MediaType state)
           (ConversationState.TMDBID state) chatID (now env) episode.

(** The row [handleAdd] inserts for a first match that is not a show. *)
Definition movieRow (env : Env) (chatID : Z) (result : Result.t) (w : World)
  : Movie.t :=
  Movie.mk (Z.of_nat (length (watched w)) + 1) (Result.Title result)
           (Result.MediaType result) (Result.ID result) chatID (now env) 0.

(** The pending state [handleAdd] stores for a first match that is a show. *)
Definition pendingFor (result : Result.t) : ConversationState.t :=
  ConversationState.mk true (Result.ID result) (Result.Name result)
                       (Result.MediaType result).

(** The events a handler added to the trace of [w]. *)
Definition sentSince (w w' : World) : list Event :=
  drop (length (trace w)) (trace w').

(** The two popular listings as [handleTop] merges them. *)
Definition merged (movies shows : TMDBResponse) : list Result.t :=
  (Results (stamp "movie" movies) ++ Results (stamp "tv" shows))%list.

(** The event [sendEntry] emits. *)
Definition entryEvent (chatID : Z) (i : nat) (result : Result.t) : Event :=
  let isTV := String.eqb (Result.MediaType result) "tv" in
  let title := if isTV then Result.Name result else Result.Title result in
  let date :=
    if isTV then Result.FirstAirDate result else Result.ReleaseDate result in
  let mediaType := if isTV then "сериал" else "фильм" in
  let message :=
    Itoa (Z.of_nat i + 1) +:+ ". *" +:+ title +:+ "* (" +:+ mediaType +:+ ", "
      +:+ date +:+ ") - "
      +:+ default "" (limitString (Result.Overview result) 100) in
  if negb (String.eqb (Result.PosterPath result) "")
  then SendPhoto chatID (posterURL (Result.PosterPath result)) message
  else SendMessage chatID message.

(** A [float64] that compares: anything but NaN.  The numbers the JSON
    decoder produces are finite, so they all do. *)
Definition notNaN (f : spec_float) : bool :=
  match f with
  | S754_nan => false
  | _ => true
  end.

Definition comparable (r : Result.t) : Prop :=
  notNaN (Result.Popularity r) = true.

(** [popGe a b]: [a] is at least as popular as [b]. *)
Definition popGe (a b : Result.t) : Prop :=
  SFleb (Result.Popularity b) (Result.Popularity a) = true.

(** What one inner loop does to the slots it visits, read as a list: [x] is
    compared with its right neighbour and moves right while it is the less
    popular one, otherwise the neighbour is carried on. *)
Fixpoint carry (x : Result.t) (l : list Result.t) : list Result.t :=
  match l with
  | [] => [x]
  | y :: t => if popLt x y then y :: carry x t else x :: carry y t
  end.

(** A string that is empty or starts with an ASCII byte. *)
Definition asciiHead (t : string) : bool :=
  match t with
  | EmptyString => true
  | String c _ => byte c <? 0x80
  end.

(** [splits rs k]: byte offset [k] falls strictly inside one of the runes
    [rs], that is, after the first byte of a multi-byte character and before
    its end. *)
Fixpoint splits (rs : list Rune) (k : nat) : bool :=
  match rs with
  | [] => false
  | r :: rs' =>
    let w := String.length (bytes r) in
    if (k <? w)%nat then (0 <? k)%nat else splits rs' (k - w)
  end.

(** The bytes a list of runes was read from. *)
Definition bytesOf (rs : list Rune) : string :=
  foldr (fun r acc => bytes r +:+ acc) "" rs.

(** A string of ASCII bytes none of which is white space. *)
Fixpoint plain (s : string) : bool :=
  match s with
  | EmptyString => true
  | String c s' =>
    (byte c <? 0x80) && negb (IsSpace (byte c)) && plain s'
  end.

(** A title that /update can name: not empty, and equal to its words joined
    by single spaces (no leading, trailing or repeated white space, and no
    white space other than the space). *)
Definition normalized (title : string) : Prop :=
  title <> "" /\ Join (Fields title) " " = title.

(** The text of an /update message for a title and an episode token. *)
Definition updateText (title token : string) : string :=
  "/update " +:+ title +:+ " " +:+ token.

(** ** Sample data *)

Definition someFloat (m : positive) (e : Z) : spec_float :=
  S754_finite false m e.

Definition inception : Result.t :=
  Result.mk 27205 "Inception" "" "movie" "2010-07-15" "" "A thief." "/in.jpg"
            (someFloat 83 0).

Definition breakingBad : Result.t :=
  Result.mk 1396 "" "Breaking Bad" "tv" "" "2008-01-20" "A teacher." ""
            (someFloat 97 1).

Definition sampleEnv : Env :=
  mkEnv (fun q => if String.eqb q "Inception"
                  then Some {| Results := [inception] |}
                  else if String.eqb q "Breaking Bad"
                  then Some {| Results := [breakingBad] |}
                  else Some {| Results := [] |})
        (Some {| Results := [Result.withMediaType "tv" inception] |})
        (Some {| Results := [Result.withMediaType "" breakingBad] |})
        1700000000 (fun _ => "2023-11-14") false false.

(** The same outside, with a store that refuses every statement. *)
Definition brokenStoreEnv : Env :=
  mkEnv (searchResponse sampleEnv) (popularMoviesResponse sampleEnv)
        (popularTVResponse sampleEnv) (now sampleEnv) (formatDate sampleEnv)
        true true.

Definition pendingBreakingBad : ConversationState.t :=
  ConversationState.mk true 1396 "Breaking Bad" "tv".

Definition emptyWorld : World := mkWorld ∅ [] [].

Definition awaitingWorld : World :=
  mkWorld {[ 7 := pendingBreakingBad ]} [] [].

(** A table with one movie and one show of user 7. *)
Definition sampleTable : list Movie.t :=
  [Movie.mk 1 "Inception" "movie" 27205 7 1700000000 0;
   Movie.mk 2 "Breaking Bad" "tv" 1396 7 1700000100 5].

Definition watchingWorld : World := mkWorld ∅ sampleTable [].

(** A table whose only row has a title with two spaces in it. *)
Definition spacedTable : list Movie.t :=
  [Movie.mk 1 "Breaking  Bad" "tv" 1396 7 1700000100 5].


(** A message handed to [bot.Send]. *)
Definition isReply (e : Event) : bool :=
  match e with
  | SendMessage _ _ | SendPhoto _ _ _ => true
  | _ => false
  end.

(** An event that, if it is a send, is addressed to [chatID]. *)
Definition addressedTo (chatID : Z) (e : Event) : Prop :=
  match e with
  | SendMessage c _ | SendPhoto c _ _ => c = chatID
  | _ => True
  end.

(** What the UPDATE statement of [updateEpisode] does to one row. *)
Definition setEpisodeOf (episode userID tmdbID : Z) (m : Movie.t) : Movie.t :=
  if (Movie.UserID m =? userID) && (Movie.TMDBID m =? tmdbID)
  then setEpisode episode m else m.

(** What one handled message may do to the conversation map: nothing, store
    an awaiting state of kind "tv" for the sender, or delete the sender's
    entry. *)
Definition statesStep (chatID : Z) (w w' : World) : Prop :=
  conversationStates w' = conversationStates w
  \/ (exists st,
        ConversationState.AwaitingEpisode st = true
        /\ ConversationState.MediaType st = "tv"
        /\ conversationStates w' = <[chatID := st]> (conversationStates w))
  \/ conversationStates w' = delete chatID (conversationStates w).

(** What one handled message may do to the table: nothing, append one row
    of the sender, or run the UPDATE statement for the sender. *)
Definition rowsStep (chatID : Z) (w w' : World) : Prop :=
  watched w' = watched w
  \/ (exists row,
        Movie.UserID row = chatID /\ watched w' = (watched w ++ [row])%list)
  \/ (exists episode tmdbID,
        watched w' = map (setEpisodeOf episode chatID tmdbID) (watched w)).

(** What one handled message adds to the trace: events of which every send
    goes to the sender, and at least one send. *)
Definition traceStep (chatID : Z) (w w' : World) : Prop :=
  exists evs,
    trace w' = (trace w ++ evs)%list
    /\ Forall (addressedTo chatID) evs
    /\ existsb isReply evs = true.

(** The three together. *)
Definition frame (chatID : Z) (w w' : World) : Prop :=
  statesStep chatID w w' /\ rowsStep chatID w w' /\ traceStep chatID w w'.

(** The rows of one user, in table order. *)
Definition rowsOf (userID : Z) (rows : list Movie.t) : list Movie.t :=
  filter (fun m => Movie.UserID m = userID) rows.

(** Two rows equal in every column but [current_episode]. *)
Definition sameButEpisode (m m' : Movie.t) : Prop :=
  Movie.ID m' = Movie.ID m /\ Movie.Title m' = Movie.Title m
  /\ Movie.MediaType m' = Movie.MediaType m
  /\ Movie.TMDBID m' = Movie.TMDBID m /\ Movie.UserID m' = Movie.UserID m
  /\ Movie.WatchedAt m' = Movie.WatchedAt m.

(** Every stored conversation state awaits an episode and is of kind
    "tv". *)
Definition onlyShowsPend (w : World) : Prop :=
  forall c st,
    conversationStates w !! c = Some st ->
    ConversationState.AwaitingEpisode st = true
    /\ ConversationState.MediaType st = "tv".

(** An update that is not a message of [other]. *)
Definition notFrom (other : Z) (eu : Env * Update) : Prop :=
  forall c text, Message (snd eu) = Some (c, text) -> c <> other.

(** The order of [ORDER BY watched_at DESC]. *)
Definition newerFirst (a b : Movie.t) : Prop :=
  Movie.WatchedAt b <= Movie.WatchedAt a.

(** The two replies of [handleList] when the query succeeds. *)
Definition msgListEmpty : string := "Ваш список просмотренного пуст".

Definition listHeader : string :=
  "Ваш список просмотренного:" +:+ String "010" "".

(** A search result that is neither a film nor a show. *)
Definition keanu : Result.t :=
  Result.mk 6384 "" "Keanu Reeves" "person" "" "" "" "/kr.jpg"
            (someFloat 71 0).

Definition personEnv : Env :=
  mkEnv (fun _ => Some {| Results := [keanu] |}) None None
        1700000200 (fun _ => "2023-11-14") false false.

(** A show and a film of user 7 that share a catalog id, and a row of
    user 8. *)
Definition clashTable : list Movie.t :=
  [Movie.mk 1 "Breaking Bad" "tv" 1396 7 1700000100 5;
   Movie.mk 2 "Judgment Night" "movie" 1396 7 1700000200 0;
   Movie.mk 3 "Breaking Bad" "tv" 1396 8 1700000300 2].

Definition clashWorld : World := mkWorld ∅ clashTable [].

Definition messageOf (env : Env) (chatID : Z) (text : string)
  : Env * Update :=
  (env, {| Message := Some (chatID, text) |}).

(** * Properties *)

Local Open Scope list_scope.

(** ** Basic facts about the handlers *)

Lemma prefix_inv (pre s : string) :
  HasPrefix s pre = true -> exists rest, s = pre +:+ rest.
Proof.
  revert s. induction pre as [|a pre IH]; intros s H.
  - exists s. reflexivity.
  - destruct s as [|b s]; simpl in H; [discriminate|].
    apply andb_true_iff in H as [Hab H].
    apply Ascii.eqb_eq in Hab as ->.
    destruct (IH _ H) as [rest ->]. exists rest. reflexivity.
Qed.

Lemma Atoi_slash (text : string) :
  HasPrefix text "/" = true -> Atoi text = None.
Proof.
  intros H. apply prefix_inv in H as [rest ->]. reflexivity.
Qed.

Lemma awaiting_Some (chatID : Z) (state : ConversationState.t) (w : World) :
  conversationStates w !! chatID = Some state ->
  ConversationState.AwaitingEpisode state = true ->
  awaiting chatID w = Some state.
Proof. intros H1 H2. unfold awaiting. rewrite H1, H2. reflexivity. Qed.

Lemma handleEpisodeInput_invalid env chatID text state w :
  invalidEpisode text = true ->
  handleEpisodeInput env chatID text state w
  = sendMessage chatID msgBadEpisode w.
Proof.
  unfold invalidEpisode, handleEpisodeInput.
  destruct (Atoi text) as [episode|]; [|reflexivity].
  intros ->. reflexivity.
Qed.

Lemma dispatch_awaiting env chatID text state w :
  conversationStates w !! chatID = Some state ->
  ConversationState.AwaitingEpisode state = true ->
  dispatch env chatID text w = handleEpisodeInput env chatID text state w.
Proof.
  intros Hst Haw. unfold dispatch. rewrite (awaiting_Some _ _ _ Hst Haw).
  reflexivity.
Qed.

(** ** The dispatcher looks at the conversation state first *)

(** C5: when the sender has a pending state whose awaiting-episode flag is
    set, the dispatcher hands the text to the episode-input handler whatever
    the text is, without matching it against the commands; a text that starts
    with a slash, such as /start or /list, is then an (invalid) episode answer
    and is answered with the episode prompt. *)
Theorem dispatch_awaiting_is_episode_input
    (env : Env) (chatID : Z) (text : string) (state : ConversationState.t)
    (w : World) :
  conversationStates w !! chatID = Some state ->
  ConversationState.AwaitingEpisode state = true ->
  dispatch env chatID text w = handleEpisodeInput env chatID text state w
  /\ (HasPrefix text "/" = true ->
      dispatch env chatID text w = sendMessage chatID msgBadEpisode w)
  /\ dispatch env chatID "/start" w = sendMessage chatID msgBadEpisode w
  /\ dispatch env chatID "/list" w = sendMessage chatID msgBadEpisode w.
Proof.
  intros Hst Haw.
  pose proof (fun t => dispatch_awaiting env chatID t state w Hst Haw) as Hd.
  repeat split.
  - apply Hd.
  - intros Hp. rewrite Hd. apply handleEpisodeInput_invalid.
    unfold invalidEpisode. rewrite (Atoi_slash _ Hp). reflexivity.
  - rewrite Hd. reflexivity.
  - rewrite Hd. reflexivity.
Qed.

Lemma dispatch_awaiting_is_episode_input_witness :
  dispatch sampleEnv 7 "/list" awaitingWorld
  = sendMessage 7 msgBadEpisode awaitingWorld.
Proof.
  apply (dispatch_awaiting_is_episode_input
           sampleEnv 7 "/list" pendingBreakingBad awaitingWorld);
    reflexivity.
Defined.

(** ** Invalid episode answers *)

Lemma run_cons eu us w :
  run (eu :: us) w = run us (handleUpdateEvent (fst eu) (snd eu) w).
Proof. reflexivity. Qed.

(** Invalid answers change neither the conversation map nor the table. *)
Lemma run_invalid_inputs
    (inputs : list (Env * string)) (chatID : Z) (state : ConversationState.t) :
  ConversationState.AwaitingEpisode state = true ->
  Forall (fun et => invalidEpisode (snd et) = true) inputs ->
  forall w,
    conversationStates w !! chatID = Some state ->
    conversationStates (run (messagesFrom chatID inputs) w)
    = conversationStates w
    /\ watched (run (messagesFrom chatID inputs) w) = watched w.
Proof.
  intros Haw Hall.
  induction Hall as [|[env text] inputs Hbad _ IH]; intros w Hst.
  - split; reflexivity.
  - unfold messagesFrom. rewrite map_cons, run_cons.
    fold (messagesFrom chatID inputs).
    cbn [fst snd handleUpdateEvent Message].
    rewrite (dispatch_awaiting env chatID text state w Hst Haw).
    rewrite (handleEpisodeInput_invalid _ _ _ _ _ Hbad).
    exact (IH (sendMessage chatID msgBadEpisode w) Hst).
Qed.

(** C3: while a user is awaiting an episode number, any number of
    consecutive inputs that are not valid episode numbers leave the
    conversation map as it was (so the pending flag, catalog id, title and
    kind are the same), add no row, and each is answered with the error
    prompt. *)
Theorem invalid_episode_inputs_keep_state
    (inputs : list (Env * string)) (chatID : Z) (state : ConversationState.t)
    (w : World) :
  conversationStates w !! chatID = Some state ->
  ConversationState.AwaitingEpisode state = true ->
  Forall (fun et => invalidEpisode (snd et) = true) inputs ->
  let w' := run (messagesFrom chatID inputs) w in
  conversationStates w' = conversationStates w
  /\ conversationStates w' !! chatID = Some state
  /\ awaiting chatID w' = Some state
  /\ watched w' = watched w
  /\ trace w'
     = trace w ++ repeat (SendMessage chatID msgBadEpisode) (length inputs).
Proof.
  intros Hst Haw Hall. revert w Hst.
  induction Hall as [|[env text] inputs Hbad _ IH]; intros w Hst.
  - cbn. rewrite app_nil_r. repeat split; auto.
    apply awaiting_Some; assumption.
  - cbv zeta in *. unfold messagesFrom. rewrite map_cons, run_cons.
    fold (messagesFrom chatID inputs).
    cbn [fst snd handleUpdateEvent Message].
    rewrite (dispatch_awaiting env chatID text state w Hst Haw).
    rewrite (handleEpisodeInput_invalid _ _ _ _ _ Hbad).
    destruct (IH (sendMessage chatID msgBadEpisode w) Hst)
      as (H1 & H2 & H3 & H4 & H5).
    rewrite H1, H3, H4, H5. repeat split; try reflexivity.
    + rewrite <- Hst. f_equal.
    + cbn. rewrite <- app_assoc. reflexivity.
Qed.

Lemma invalid_episode_inputs_keep_state_witness :
  let w' := run (messagesFrom 7 [(sampleEnv, "abc"); (brokenStoreEnv, "-1");
                                 (sampleEnv, "/start")]) awaitingWorld in
  conversationStates w' = conversationStates awaitingWorld
  /\ conversationStates w' !! 7 = Some pendingBreakingBad
  /\ awaiting 7 w' = Some pendingBreakingBad
  /\ watched w' = watched awaitingWorld
  /\ trace w'
     = (trace awaitingWorld ++ repeat (SendMessage 7 msgBadEpisode) 3)%list.
Proof.
  apply (invalid_episode_inputs_keep_state
           [(sampleEnv, "abc"); (brokenStoreEnv, "-1"); (sampleEnv, "/start")]
           7 pendingBreakingBad awaitingWorld).
  - reflexivity.
  - reflexivity.
  - repeat constructor.
Defined.

(** ** The two-step add flow *)

(** Case analysis on whatever a handler branches on next. *)
Ltac branch :=
  match goal with
  | |- context [match ?x with _ => _ end] => destruct x eqn:?
  end.

Lemma app_one_neq {A} (l : list A) (x : A) : l <> (l ++ [x])%list.
Proof.
  intros H. apply (f_equal length) in H. rewrite length_app in H.
  simpl in H. lia.
Qed.

(** The row that [handleEpisodeInput] inserts for a pending state. *)
Lemma handleEpisodeInput_valid env chatID text state w episode :
  Atoi text = Some episode -> 0 <= episode ->
  let w' := handleEpisodeInput env chatID text state w in
  if execFails env then
    w' = logPrintf logDatabaseError (sendMessage chatID msgSaveError w)
  else
    conversationStates w' = delete chatID (conversationStates w)
    /\ watched w'
       = (watched w ++ [episodeRow env chatID state episode w])%list.
Proof.
  intros HA Hge. unfold handleEpisodeInput, insertWatched. rewrite HA.
  replace (episode <? 0) with false by lia.
  destruct (execFails env); [reflexivity|].
  cbn. repeat branch; cbn; auto.
Qed.

(** C10: when the insert fails on a valid episode answer, the pending state
    stays: the conversation map and the table are as before, the failure is
    reported, and the sender's next text is again an episode answer.  The
    entry is deleted exactly when the row has been inserted. *)
Theorem failed_insert_keeps_pending_state
    (env : Env) (chatID : Z) (text : string) (state : ConversationState.t)
    (w : World) (episode : Z) :
  conversationStates w !! chatID = Some state ->
  ConversationState.AwaitingEpisode state = true ->
  Atoi text = Some episode ->
  0 <= episode ->
  let w' := dispatch env chatID text w in
  let row := episodeRow env chatID state episode w in
  (execFails env = true ->
     conversationStates w' = conversationStates w
     /\ watched w' = watched w
     /\ trace w' = (trace w ++ [SendMessage chatID msgSaveError;
                                LogPrintf logDatabaseError])%list
     /\ forall env' text',
          dispatch env' chatID text' w'
          = handleEpisodeInput env' chatID text' state w')
  /\ (execFails env = false ->
        conversationStates w' = delete chatID (conversationStates w)
        /\ watched w' = (watched w ++ [row])%list)
  /\ (conversationStates w' !! chatID = None
      <-> watched w' = (watched w ++ [row])%list).
Proof.
  intros Hst Haw HA Hge w' row.
  assert (Hw' : w' = handleEpisodeInput env chatID text state w)
    by (apply dispatch_awaiting; assumption).
  pose proof (handleEpisodeInput_valid env chatID text state w episode HA Hge)
    as Hv.
  cbv zeta in Hv. rewrite <- Hw' in Hv. fold row in Hv.
  destruct (execFails env) eqn:Hex.
  - assert (Hcs : conversationStates w' = conversationStates w)
      by (rewrite Hv; reflexivity).
    assert (Hwt : watched w' = watched w) by (rewrite Hv; reflexivity).
    split; [|split].
    + intros _. repeat split; auto.
      * rewrite Hv. cbn. rewrite <- app_assoc. reflexivity.
      * intros env' text'. unfold dispatch.
        rewrite (awaiting_Some chatID state w'); [reflexivity| |assumption].
        rewrite Hcs. assumption.
    + discriminate.
    + rewrite Hcs, Hwt, Hst. split; [discriminate|].
      intros H. exfalso. exact (app_one_neq _ _ H).
  - destruct Hv as [Hcs Hwt]. split; [|split].
    + discriminate.
    + auto.
    + rewrite Hcs, Hwt, lookup_delete_eq. tauto.
Qed.

Lemma failed_insert_keeps_pending_state_witness :
  conversationStates (dispatch brokenStoreEnv 7 "5" awaitingWorld)
  = conversationStates awaitingWorld
  /\ watched (dispatch brokenStoreEnv 7 "5" awaitingWorld) = [].
Proof.
  destruct (failed_insert_keeps_pending_state
              brokenStoreEnv 7 "5" pendingBreakingBad awaitingWorld 5)
    as [H _]; try reflexivity.
  - discriminate.
  - destruct (H eq_refl) as (H1 & H2 & _). split; assumption.
Defined.

Lemma dispatch_add env chatID query w :
  awaiting chatID w = None ->
  dispatch env chatID ("/add " +:+ query) w = handleAdd env chatID query w.
Proof.
  intros H. unfold dispatch. rewrite H. unfold command.
  replace (String.eqb ("/add " +:+ query) "/start") with false by reflexivity.
  replace (HasPrefix ("/add " +:+ query) "/add") with true by reflexivity.
  replace (TrimPrefix ("/add " +:+ query) "/add ") with query; [reflexivity|].
  unfold TrimPrefix.
  replace (HasPrefix ("/add " +:+ query) "/add ") with true by reflexivity.
  reflexivity.
Qed.

Lemma eqb_false_of_neq (a b : string) : a <> b -> String.eqb a b = false.
Proof. intros H. apply String.eqb_neq. exact H. Qed.

(** C4: an /add whose first catalog match is a movie leaves the conversation
    map untouched and inserts the row at once with episode 0 (the insert is
    the only thing that can keep the row out of the table); an /add whose
    first match is a show stores the pending state with the match's id, name
    and kind under the sender's id, replacing what was there, and adds no
    row, nor do invalid answers that follow. *)
Theorem add_movie_persists_add_show_defers
    (env : Env) (chatID : Z) (query : string) (w : World)
    (result : Result.t) (rest : list Result.t) :
  awaiting chatID w = None ->
  query <> "" ->
  searchResponse env query = Some {| Results := result :: rest |} ->
  let w' := dispatch env chatID ("/add " +:+ query) w in
  (Result.MediaType result = "movie" ->
     conversationStates w' = conversationStates w
     /\ Movie.CurrentEpisode (movieRow env chatID result w) = 0
     /\ watched w' = if execFails env then watched w
                     else (watched w ++ [movieRow env chatID result w])%list)
  /\ (Result.MediaType result = "tv" ->
        conversationStates w'
        = <[chatID := pendingFor result]> (conversationStates w)
        /\ awaiting chatID w' = Some (pendingFor result)
        /\ watched w' = watched w
        /\ forall inputs,
             Forall (fun et => invalidEpisode (snd et) = true) inputs ->
             watched (run (messagesFrom chatID inputs) w') = watched w).
Proof.
  intros Hnorm Hq Hs w'. subst w'. rewrite (dispatch_add _ _ _ _ Hnorm).
  unfold handleAdd, searchTMDB. rewrite (eqb_false_of_neq _ _ Hq), Hs.
  cbn [fmap option_fmap option_map Results]. split.
  - intros Hk. rewrite Hk. cbn [String.eqb Ascii.eqb Bool.eqb].
    unfold insertWatched, movieRow. rewrite Hk.
    destruct (execFails env); [cbn; auto|].
    cbn. branch; cbn; auto.
  - intros Hk. rewrite Hk. cbn [String.eqb Ascii.eqb Bool.eqb].
    assert (Hp : ConversationState.mk true (Result.ID result)
                   (Result.Name result) "tv" = pendingFor result)
      by (unfold pendingFor; rewrite Hk; reflexivity).
    rewrite Hp.
    set (w1 := sendMessage chatID _ _).
    assert (Hl : conversationStates w1 !! chatID = Some (pendingFor result))
      by (cbn; apply lookup_insert_eq).
    repeat split.
    + apply awaiting_Some; [exact Hl | reflexivity].
    + intros inputs Hall.
      destruct (run_invalid_inputs inputs chatID (pendingFor result)
                  eq_refl Hall w1 Hl) as [_ H].
      exact H.
Qed.

Lemma add_movie_persists_add_show_defers_witness :
  watched (dispatch sampleEnv 7 "/add Inception" emptyWorld)
  = [movieRow sampleEnv 7 inception emptyWorld]
  /\ conversationStates (dispatch sampleEnv 7 "/add Breaking Bad" emptyWorld)
     = {[ 7 := pendingFor breakingBad ]}.
Proof.
  split.
  - destruct (add_movie_persists_add_show_defers
                sampleEnv 7 "Inception" emptyWorld inception []
                eq_refl ltac:(discriminate) eq_refl) as [H _].
    destruct (H eq_refl) as (_ & _ & H3). exact H3.
  - destruct (add_movie_persists_add_show_defers
                sampleEnv 7 "Breaking Bad" emptyWorld breakingBad []
                eq_refl ltac:(discriminate) eq_refl) as [_ H].
    destruct (H eq_refl) as (H1 & _). exact H1.
Defined.

(** ** The popular listings *)

Lemma stamp_kind (mediaType : string) (response : TMDBResponse) :
  Forall (fun r => Result.MediaType r = mediaType)
         (Results (stamp mediaType response)).
Proof.
  unfold stamp. cbn [Results]. apply Forall_map, Forall_true.
  intros r. reflexivity.
Qed.

(** C7: whenever the popular-movies request decodes, [getTopMovies] returns
    the decoded results in the same order with the kind of each replaced by
    "movie", and [getTopTVShows] does the same with "tv"; the kind the
    response itself carried plays no part. *)
Theorem popular_listings_stamp_kind (env : Env) (w : World) :
  (forall raw, popularMoviesResponse env = Some raw ->
     exists response,
       fst (getTopMovies env w) = Some response
       /\ Results response
          = map (Result.withMediaType "movie") (Results raw)
       /\ Forall (fun r => Result.MediaType r = "movie") (Results response))
  /\ (forall raw, popularTVResponse env = Some raw ->
        exists response,
          fst (getTopTVShows env w) = Some response
          /\ Results response = map (Result.withMediaType "tv") (Results raw)
          /\ Forall (fun r => Result.MediaType r = "tv") (Results response)).
Proof.
  split; intros raw Hraw.
  - exists (stamp "movie" raw). unfold getTopMovies. rewrite Hraw.
    repeat split. apply stamp_kind.
  - exists (stamp "tv" raw). unfold getTopTVShows. rewrite Hraw.
    repeat split. apply stamp_kind.
Qed.

Lemma popular_listings_stamp_kind_witness :
  exists response,
    fst (getTopMovies sampleEnv emptyWorld) = Some response
    /\ Results response
       = map (Result.withMediaType "movie")
             [Result.withMediaType "tv" inception]
    /\ Forall (fun r => Result.MediaType r = "movie") (Results response).
Proof.
  exact (proj1 (popular_listings_stamp_kind sampleEnv emptyWorld)
               {| Results := [Result.withMediaType "tv" inception] |} eq_refl).
Defined.

(** ** The argument of /add *)

Lemma sentSince_app (w w' : World) (evs : list Event) :
  trace w' = (trace w ++ evs)%list -> sentSince w w' = evs.
Proof. intros H. unfold sentSince. rewrite H. apply drop_app_length. Qed.

Lemma usage_not_other chatID (text : string) :
  (exists c rest, text = String "208" (String c rest) /\ c <> "163"%char) ->
  SendMessage chatID msgAddUsage <> SendMessage chatID text.
Proof.
  intros (c & rest & -> & Hc) H. injection H as H _. congruence.
Qed.

(** What [handleAdd] adds to the trace: the usage prompt alone for the empty
    query, otherwise the catalog search for the query followed by replies
    none of which is the usage prompt. *)
Lemma handleAdd_trace env chatID query w :
  exists evs,
    trace (handleAdd env chatID query w) = (trace w ++ evs)%list
    /\ (query = "" -> evs = [SendMessage chatID msgAddUsage])
    /\ (query <> "" ->
        exists evs', evs = SearchMulti query :: evs'
                     /\ SendMessage chatID msgAddUsage ∉ evs').
Proof.
  unfold handleAdd. destruct (String.eqb_spec query "") as [->|Hq].
  - exists [SendMessage chatID msgAddUsage]. repeat split. congruence.
  - unfold searchTMDB, insertWatched.
    destruct (execFails env); repeat branch; cbn;
      eexists; (split; [rewrite <- ?app_assoc; reflexivity|]);
      (split; [congruence|]); intros _; eexists; (split; [reflexivity|]).
    all: intros Hin; cbn [app] in Hin;
      rewrite ?elem_of_cons, ?elem_of_nil in Hin.
    all: repeat (destruct Hin as [Hin|Hin]); try discriminate; try assumption.
    all: revert Hin; apply usage_not_other; do 2 eexists; split;
      [reflexivity|discriminate].
Qed.

Lemma command_add_prefix env chatID text w :
  HasPrefix text "/add" = true ->
  command env chatID text w
  = handleAdd env chatID (TrimPrefix text "/add ") w.
Proof.
  intros Hp. unfold command. rewrite Hp.
  apply prefix_inv in Hp as [rest ->]. reflexivity.
Qed.

Lemma TrimPrefix_add_empty text :
  HasPrefix text "/add" = true ->
  (TrimPrefix text "/add " = "" <-> text = "/add ").
Proof.
  intros Hp. apply prefix_inv in Hp as [rest ->].
  destruct rest as [|c rest].
  - split; discriminate.
  - unfold TrimPrefix.
    change (HasPrefix ("/add" +:+ String c rest) "/add ")
      with (Ascii.eqb " " c && true).
    destruct (Ascii.eqb_spec " " c) as [<-|Hc].
    + change (rest = "" <-> "/add" +:+ String " " rest = "/add ").
      split; [intros ->; reflexivity|]. intros H. injection H. auto.
    + change ("/add" +:+ String c rest = ""
              <-> "/add" +:+ String c rest = "/add ").
      split; [discriminate|]. intros H. injection H. congruence.
Qed.

(** C8: in the normal state the text /add without a trailing space matches
    the dispatcher's prefix test, the trim of the five-byte prefix leaves it
    as it is, and the add handler searches the catalog for /add without
    sending the usage prompt.  For any text the prefix test lets through,
    the usage prompt is among the events sent exactly when the handler's
    argument is empty, which is exactly when the text is /add followed by
    one space. *)
Theorem bare_add_is_searched_for (env : Env) (chatID : Z) (w : World) :
  awaiting chatID w = None ->
  HasPrefix "/add" "/add" = true
  /\ TrimPrefix "/add" "/add " = "/add"
  /\ dispatch env chatID "/add" w = handleAdd env chatID "/add" w
  /\ (exists evs,
        sentSince w (dispatch env chatID "/add" w)
        = SearchMulti "/add" :: evs
        /\ SendMessage chatID msgAddUsage ∉ evs)
  /\ forall text,
       HasPrefix text "/add" = true ->
       dispatch env chatID text w
       = handleAdd env chatID (TrimPrefix text "/add ") w
       /\ (SendMessage chatID msgAddUsage
             ∈ sentSince w (dispatch env chatID text w)
           <-> TrimPrefix text "/add " = "")
       /\ (TrimPrefix text "/add " = "" <-> text = "/add ").
Proof.
  intros Hnorm.
  assert (Hd : forall text, HasPrefix text "/add" = true ->
             dispatch env chatID text w
             = handleAdd env chatID (TrimPrefix text "/add ") w).
  { intros text Hp. unfold dispatch. rewrite Hnorm.
    apply command_add_prefix, Hp. }
  split; [reflexivity|]. split; [reflexivity|].
  split; [apply (Hd "/add"); reflexivity|]. split.
  - rewrite (Hd "/add") by reflexivity.
    change (TrimPrefix "/add" "/add ") with "/add".
    destruct (handleAdd_trace env chatID "/add" w) as (evs & Ht & _ & Hne).
    destruct Hne as (evs' & -> & Hnot); [discriminate|].
    exists evs'. split; [|exact Hnot]. apply sentSince_app, Ht.
  - intros text Hp. split; [apply Hd, Hp|].
    split; [|apply TrimPrefix_add_empty, Hp].
    rewrite (Hd text Hp).
    destruct (handleAdd_trace env chatID (TrimPrefix text "/add ") w)
      as (evs & Ht & Hemp & Hne).
    rewrite (sentSince_app _ _ _ Ht).
    destruct (String.eqb_spec (TrimPrefix text "/add ") "") as [He|He].
    + rewrite (Hemp He). split; [auto|]. intros _. apply list_elem_of_here.
    + destruct (Hne He) as (evs' & -> & Hnot). split; [|contradiction].
      intros Hin. apply elem_of_cons in Hin as [Hin|Hin];
        [discriminate|contradiction].
Qed.

Lemma bare_add_is_searched_for_witness :
  dispatch sampleEnv 7 "/add" emptyWorld
  = handleAdd sampleEnv 7 "/add" emptyWorld
  /\ trace (dispatch sampleEnv 7 "/add" emptyWorld)
     = [SearchMulti "/add"; SendMessage 7 (msgNothingFound "/add")].
Proof.
  split; [|reflexivity].
  exact (proj1 (proj2 (proj2
           (bare_add_is_searched_for sampleEnv 7 emptyWorld eq_refl)))).
Defined.

(** ** /update *)

Lemma find_first {A} (P : A -> bool) (l : list A) (x : A) :
  find P l = Some x ->
  exists i, l !! i = Some x /\ P x = true
            /\ forall j y, (j < i)%nat -> l !! j = Some y -> P y = false.
Proof.
  induction l as [|a l IH]; [discriminate|]. cbn [find].
  destruct (P a) eqn:Ha.
  - intros [= ->]. exists 0%nat. repeat split; auto. intros j y Hj. lia.
  - intros H. destruct (IH H) as (i & Hi & Hx & Hfirst).
    exists (S i). repeat split; auto.
    intros [|j] y Hj Hy.
    + cbn in Hy. congruence.
    + apply (Hfirst j); [lia|exact Hy].
Qed.

Lemma parseUpdate_episode query title episode :
  parseUpdate query = Args title episode -> 0 <= episode.
Proof.
  unfold parseUpdate. repeat branch; try discriminate.
  intros [= _ <-]. lia.
Qed.

(** C2: for an /update whose argument parses to a title and a non-negative
    episode: when no row of the sender has that title the reply is the
    not-found message and the world is otherwise as before; when the first
    such row is not of kind "tv" the reply is the wrong-kind message and no
    row changes; otherwise the UPDATE statement is run and the matched row
    has its current episode set to the given number.  A statement the store
    refuses changes no row. *)
Theorem update_episode_cases
    (env : Env) (chatID : Z) (query title : string) (episode : Z)
    (w : World) :
  parseUpdate query = Args title episode ->
  let w' := handleUpdate env chatID query w in
  0 <= episode
  /\ (find (matchesTitle chatID title) (watched w) = None ->
        w' = sendMessage chatID msgNotInList w /\ watched w' = watched w)
  /\ (forall m,
        find (matchesTitle chatID title) (watched w) = Some m ->
        Movie.MediaType m <> "tv" ->
        queryFails env = false ->
        w' = sendMessage chatID msgNotAShow w /\ watched w' = watched w)
  /\ (forall m,
        find (matchesTitle chatID title) (watched w) = Some m ->
        Movie.MediaType m = "tv" ->
        queryFails env = false ->
        execFails env = false ->
        exists i,
          watched w !! i = Some m
          /\ watched w' !! i = Some (setEpisode episode m)
          /\ Movie.CurrentEpisode (setEpisode episode m) = episode
          /\ length (watched w') = length (watched w)
          /\ watched w'
             = map (fun r =>
                      if (Movie.UserID r =? chatID)
                         && (Movie.TMDBID r =? Movie.TMDBID m)
                      then setEpisode episode r else r) (watched w)
          /\ sentSince w w' = [SendMessage chatID (msgUpdated title episode)])
  /\ (queryFails env = true \/ execFails env = true ->
        watched w' = watched w).
Proof.
  intros Hparse w'. subst w'. unfold handleUpdate. rewrite Hparse.
  split; [exact (parseUpdate_episode _ _ _ Hparse)|].
  unfold selectByTitle, updateEpisode. split; [|split; [|split]].
  - intros ->. destruct (queryFails env); split; reflexivity.
  - intros m Hfind Hkind Hq.
    rewrite Hfind, Hq, (eqb_false_of_neq _ _ Hkind). split; reflexivity.
  - intros m Hfind Hkind Hq He. rewrite Hfind, Hq, He, Hkind.
    cbn [String.eqb Ascii.eqb Bool.eqb negb].
    destruct (find_first _ _ _ Hfind) as (i & Hi & Hm & _).
    exists i. split; [exact Hi|]. cbn [sendMessage emit watched].
    unfold matchesTitle in Hm. apply andb_true_iff in Hm as [Hu _].
    repeat split.
    + rewrite list_lookup_fmap, Hi. cbn. rewrite Hu, Z.eqb_refl. reflexivity.
    + apply length_map.
    + apply sentSince_app. reflexivity.
  - intros [Hq|He].
    + rewrite Hq. reflexivity.
    + rewrite He. repeat branch; reflexivity.
Qed.

Lemma update_episode_cases_witness :
  watched (handleUpdate sampleEnv 7 "Breaking Bad 9" watchingWorld) !! 1%nat
  = Some (Movie.mk 2 "Breaking Bad" "tv" 1396 7 1700000100 9)
  /\ handleUpdate sampleEnv 7 "Inception 9" watchingWorld
     = sendMessage 7 msgNotAShow watchingWorld
  /\ handleUpdate sampleEnv 7 "Dark 9" watchingWorld
     = sendMessage 7 msgNotInList watchingWorld.
Proof.
  split; [|split].
  - destruct (update_episode_cases sampleEnv 7 "Breaking Bad 9"
                "Breaking Bad" 9 watchingWorld eq_refl) as (_ & _ & _ & H & _).
    destruct (H (Movie.mk 2 "Breaking Bad" "tv" 1396 7 1700000100 5)
                eq_refl eq_refl eq_refl eq_refl) as (i & _).
    reflexivity.
  - destruct (update_episode_cases sampleEnv 7 "Inception 9"
                "Inception" 9 watchingWorld eq_refl) as (_ & _ & H & _).
    destruct (H (Movie.mk 1 "Inception" "movie" 27205 7 1700000000 0)
                eq_refl ltac:(discriminate) eq_refl) as [H1 _]. exact H1.
  - destruct (update_episode_cases sampleEnv 7 "Dark 9"
                "Dark" 9 watchingWorld eq_refl) as (_ & H & _).
    destruct (H eq_refl) as [H1 _]. exact H1.
Defined.

(** ** Ranking by popularity *)

(** *** The order on popularity scores *)

Ltac float_cases :=
  repeat match goal with
  | f : spec_float |- _ => destruct f as [[]|[]| |[] ? ?]
  end.

Ltac compare_cases :=
  repeat match goal with
  | H : context [PosDef.Pos.compare_cont Eq ?a ?b] |- _ =>
    change (PosDef.Pos.compare_cont Eq a b) with (Pos.compare a b) in H
  | |- context [PosDef.Pos.compare_cont Eq ?a ?b] =>
    change (PosDef.Pos.compare_cont Eq a b) with (Pos.compare a b)
  end;
  repeat match goal with
  | H : context [(?a ?= ?b)%Z] |- _ =>
    destruct (Z.compare_spec a b); cbn in H
  | |- context [(?a ?= ?b)%Z] => destruct (Z.compare_spec a b); cbn
  | H : context [Pos.compare ?a ?b] |- _ =>
    destruct (Pos.compare_spec a b); cbn in H
  | |- context [Pos.compare ?a ?b] => destruct (Pos.compare_spec a b); cbn
  end.

Lemma SFleb_trans a b c :
  notNaN a = true -> notNaN b = true -> notNaN c = true ->
  SFleb a b = true -> SFleb b c = true -> SFleb a c = true.
Proof.
  unfold SFleb, SFcompare. intros Ha Hb Hc.
  float_cases; try discriminate; cbn; try reflexivity; intros H1 H2;
    try discriminate; compare_cases; try reflexivity; try discriminate;
    try lia.
Qed.

Lemma SFltb_false_leb a b :
  notNaN a = true -> notNaN b = true -> SFltb a b = false -> SFleb b a = true.
Proof.
  unfold SFleb, SFltb, SFcompare. intros Ha Hb.
  float_cases; try discriminate; cbn; try reflexivity; intros H1;
    try discriminate; compare_cases; try reflexivity; try discriminate;
    try lia.
Qed.

Lemma SFltb_true_leb a b : SFltb a b = true -> SFleb a b = true.
Proof. unfold SFleb, SFltb. destruct (SFcompare a b) as [[]|]; auto. Qed.

Lemma SFleb_refl a : notNaN a = true -> SFleb a a = true.
Proof.
  unfold SFleb, SFcompare. intros Ha.
  float_cases; try discriminate; cbn; try reflexivity.
  all: rewrite Z.compare_refl;
    match goal with
    | |- context [PosDef.Pos.compare_cont Eq ?m ?m] =>
      change (PosDef.Pos.compare_cont Eq m m) with (Pos.compare m m)
    end;
    rewrite Pos.compare_refl; reflexivity.
Qed.

Lemma popGe_refl a : comparable a -> popGe a a.
Proof. apply SFleb_refl. Qed.

Lemma popGe_trans a b c :
  comparable a -> comparable b -> comparable c ->
  popGe a b -> popGe b c -> popGe a c.
Proof.
  unfold popGe, comparable. intros Ha Hb Hc Hab Hbc.
  exact (SFleb_trans _ _ _ Hc Hb Ha Hbc Hab).
Qed.

Lemma popLt_false_ge a b :
  comparable a -> comparable b -> popLt a b = false -> popGe a b.
Proof. unfold popGe, popLt. intros. apply SFltb_false_leb; assumption. Qed.

Lemma popLt_true_ge a b : popLt a b = true -> popGe b a.
Proof. unfold popGe, popLt. apply SFltb_true_leb. Qed.

(** *** One pass of the inner loop *)

Lemma swapStep_at (pre : list Result.t) (a b : Result.t) (rest : list Result.t) :
  swapStep (pre ++ a :: b :: rest) (length pre)
  = (pre ++ (if popLt a b then b :: a :: rest else a :: b :: rest))%list.
Proof.
  unfold swapStep.
  rewrite (lookup_app_r pre) by lia.
  replace (length pre - length pre)%nat with 0%nat by lia.
  rewrite (lookup_app_r pre) by lia.
  replace (S (length pre) - length pre)%nat with 1%nat by lia.
  cbn [lookup list_lookup]. destruct (popLt a b); [|reflexivity].
  rewrite (insert_app_r_alt pre) by lia.
  replace (length pre - length pre)%nat with 0%nat by lia.
  rewrite (insert_app_r_alt pre) by (rewrite ?length_app; lia).
  replace (S (length pre) - length pre)%nat with 1%nat by lia.
  reflexivity.
Qed.

Lemma fold_swapStep_carry (l1 : list Result.t) :
  forall (pre : list Result.t) (x : Result.t) (l2 : list Result.t),
    fold_left swapStep (seq (length pre) (length l1)) (pre ++ x :: l1 ++ l2)
    = (pre ++ carry x l1 ++ l2)%list.
Proof.
  induction l1 as [|y l1 IH]; intros pre x l2; [reflexivity|].
  cbn [length seq fold_left app carry].
  rewrite swapStep_at. destruct (popLt x y).
  - specialize (IH (pre ++ [y])%list x l2).
    rewrite length_app, Nat.add_1_r, <- !app_assoc in IH. exact IH.
  - specialize (IH (pre ++ [x])%list y l2).
    rewrite length_app, Nat.add_1_r, <- !app_assoc in IH. exact IH.
Qed.

(** [carry] leaves the least popular of the visited slots last. *)
Lemma carry_last (l : list Result.t) :
  forall x, Forall comparable (x :: l) ->
    exists front least,
      carry x l = front ++ [least]
      /\ length front = length l
      /\ front ++ [least] ≡ₚ x :: l
      /\ Forall (fun y => popGe y least) (x :: l).
Proof.
  induction l as [|y l IH]; intros x Hall.
  - exists [], x. repeat split; auto.
    constructor; [|constructor]. apply popGe_refl.
    apply Forall_cons in Hall as [Hx _]. exact Hx.
  - apply Forall_cons in Hall as [Hx Hall].
    pose proof Hall as Hyl. apply Forall_cons in Hyl as [Hy Hl].
    cbn [carry]. destruct (popLt x y) eqn:Hlt.
    + destruct (IH x) as (front & least & Hc & Hlen & Hperm & Hge);
        [constructor; assumption|].
      assert (Hcl : comparable least).
      { assert (Hin : least ∈ x :: l).
        { rewrite <- Hperm. apply elem_of_app. right. apply list_elem_of_here. }
        rewrite Forall_forall in Hl.
        apply elem_of_cons in Hin as [->|Hin]; [exact Hx|]. apply Hl, Hin. }
      exists (y :: front), least. rewrite Hc. repeat split.
      * cbn. lia.
      * cbn. rewrite Hperm. apply perm_swap.
      * apply Forall_cons in Hge as [Hxl Hge].
        repeat constructor; try assumption.
        apply (popGe_trans y x least); auto. apply popLt_true_ge, Hlt.
    + destruct (IH y) as (front & least & Hc & Hlen & Hperm & Hge);
        [assumption|].
      assert (Hcl : comparable least).
      { assert (Hin : least ∈ y :: l).
        { rewrite <- Hperm. apply elem_of_app. right. apply list_elem_of_here. }
        rewrite Forall_forall in Hall. apply Hall, Hin. }
      exists (x :: front), least. rewrite Hc. repeat split.
      * cbn. lia.
      * cbn. rewrite Hperm. reflexivity.
      * pose proof Hge as Hge'. apply Forall_cons in Hge' as [Hyl _].
        constructor; [|assumption].
        apply (popGe_trans x y least); auto. apply popLt_false_ge; assumption.
Qed.

Lemma bubblePass_carry (x : Result.t) (l1 suf : list Result.t) :
  bubblePass (x :: l1 ++ suf) (length suf) = carry x l1 ++ suf.
Proof.
  unfold bubblePass. cbn [length]. rewrite length_app.
  replace (S (length l1 + length suf) - length suf - 1)%nat
    with (length l1) by lia.
  exact (fold_swapStep_carry l1 [] x suf).
Qed.

(** *** The outer loop *)

(** After [k] passes the last [k] slots are in their final order and hold
    the [k] least popular results. *)
Lemma passes_invariant (results : list Result.t) :
  Forall comparable results ->
  forall k, (k <= length results - 1)%nat ->
    exists pre suf,
      fold_left bubblePass (seq 0 k) results = pre ++ suf
      /\ length suf = k
      /\ pre ++ suf ≡ₚ results
      /\ StronglySorted popGe suf
      /\ Forall (fun a => Forall (popGe a) suf) pre.
Proof.
  intros Hall k. induction k as [|k IH]; intros Hk.
  - exists results, []. rewrite app_nil_r. repeat split; auto.
    + constructor.
    + apply Forall_true. intros a. constructor.
  - destruct IH as (pre & suf & Hf & Hlen & Hperm & Hsorted & Hsplit); [lia|].
    rewrite seq_S, fold_left_app, Hf. cbn [fold_left Nat.add].
    assert (Hn : length (pre ++ suf) = length results)
      by (rewrite Hperm; reflexivity).
    rewrite length_app in Hn.
    destruct pre as [|x l1]; [cbn in Hn; lia|].
    subst k. cbn [app]. rewrite bubblePass_carry.
    assert (Hcomp : Forall comparable (x :: l1)).
    { rewrite Forall_forall in Hall |- *. intros a Ha. apply Hall.
      rewrite <- Hperm. apply elem_of_app. left. exact Ha. }
    destruct (carry_last l1 x Hcomp) as (front & least & Hc & Hfl & Hp & Hge).
    exists front, (least :: suf). rewrite Hc, <- app_assoc. cbn [app].
    assert (Hleast : least ∈ x :: l1).
    { rewrite <- Hp. apply elem_of_app. right. apply list_elem_of_here. }
    split; [reflexivity|]. split; [|split; [|split]].
    + cbn. lia.
    + rewrite <- Hperm.
      change (front ++ least :: suf) with (front ++ [least] ++ suf).
      rewrite app_assoc, Hp. reflexivity.
    + constructor; [exact Hsorted|].
      rewrite Forall_forall in Hsplit. apply (Hsplit least Hleast).
    + rewrite Forall_forall in Hsplit, Hge |- *. intros a Ha.
      assert (Hin : a ∈ x :: l1).
      { rewrite <- Hp. apply elem_of_app. left. exact Ha. }
      constructor; [apply Hge, Hin | apply Hsplit, Hin].
Qed.

Lemma sortResultsByPopularity_sorted (results : list Result.t) :
  Forall comparable results ->
  sortResultsByPopularity results ≡ₚ results
  /\ StronglySorted popGe (sortResultsByPopularity results).
Proof.
  intros Hall. unfold sortResultsByPopularity.
  destruct (passes_invariant results Hall (length results - 1) (le_n _))
    as (pre & suf & Hf & Hlen & Hperm & Hsorted & Hsplit).
  rewrite Hf. split; [exact Hperm|].
  assert (Hn : length (pre ++ suf) = length results)
    by (rewrite Hperm; reflexivity).
  rewrite length_app in Hn.
  destruct pre as [|a [|b pre]].
  - exact Hsorted.
  - cbn [app]. constructor; [exact Hsorted|].
    apply Forall_cons in Hsplit as [Ha _]. exact Ha.
  - cbn in Hn. lia.
Qed.

(** *** What /top sends *)

Lemma sendEntry_emit chatID i result w :
  sendEntry chatID i result w = emit (entryEvent chatID i result) w.
Proof.
  unfold sendEntry, entryEvent.
  destruct (negb (String.eqb (Result.PosterPath result) "")); reflexivity.
Qed.

Lemma sendEntries_trace chatID (results : list Result.t) :
  forall i w,
    trace (sendEntries chatID i results w)
    = trace w ++ imap (fun k => entryEvent chatID (i + k)) results.
Proof.
  induction results as [|r results IH]; intros i w.
  - cbn. rewrite app_nil_r. reflexivity.
  - cbn [sendEntries imap]. rewrite IH, sendEntry_emit. cbn [emit trace].
    rewrite <- app_assoc. cbn [app]. rewrite Nat.add_0_r.
    do 2 f_equal. apply imap_ext. intros k x _. cbn. f_equal. lia.
Qed.

Lemma StronglySorted_take {A} (R : A -> A -> Prop) (l : list A) (n : nat) :
  StronglySorted R l -> StronglySorted R (take n l).
Proof.
  intros H. revert n. induction H as [|a l Hs IH Ha]; intros [|n]; cbn;
    try constructor; auto.
  rewrite Forall_forall in Ha |- *. intros x Hx. apply Ha.
  apply list_elem_of_lookup in Hx as [i Hi].
  apply lookup_take_Some in Hi as [Hi _].
  apply list_elem_of_lookup. eauto.
Qed.

(** C1: when both popular listings are returned and their merge is not
    empty, /top sends, after the two requests, one entry for each of the
    first min(20, number of merged results) slots of the merge as the
    quadratic sort leaves it; the sort yields a permutation of the merge in
    which every result is at least as popular as all that follow it, so the
    entries go out by non-increasing popularity. *)
Theorem top_sends_most_popular_first
    (env : Env) (chatID : Z) (w : World) (movies shows : TMDBResponse) :
  popularMoviesResponse env = Some movies ->
  popularTVResponse env = Some shows ->
  merged movies shows <> [] ->
  Forall comparable (merged movies shows) ->
  let ranked := sortResultsByPopularity (merged movies shows) in
  let emitted := take (Nat.min 20 (length ranked)) ranked in
  sentSince w (handleTop env chatID w)
  = PopularMovies :: PopularTV :: imap (entryEvent chatID) emitted
  /\ length (imap (entryEvent chatID) emitted)
     = Nat.min 20 (length (merged movies shows))
  /\ ranked ≡ₚ merged movies shows
  /\ StronglySorted popGe ranked
  /\ StronglySorted popGe emitted.
Proof.
  intros Hm Hs Hne Hall ranked emitted.
  destruct (sortResultsByPopularity_sorted _ Hall) as [Hperm Hsorted].
  fold ranked in Hperm, Hsorted.
  assert (Hlen : length ranked = length (merged movies shows))
    by (rewrite Hperm; reflexivity).
  split; [|split; [|split; [|split]]]; auto.
  - apply sentSince_app. unfold handleTop, getTopMovies, getTopTVShows.
    rewrite Hm, Hs. cbn [fmap option_fmap option_map].
    fold (merged movies shows).
    assert (Hz : (length (merged movies shows) =? 0)%nat = false)
      by (destruct (merged movies shows); [congruence|reflexivity]).
    rewrite Hz. fold ranked. fold emitted.
    rewrite sendEntries_trace. cbn [emit trace]. rewrite <- !app_assoc.
    reflexivity.
  - unfold emitted. rewrite length_imap, length_take, Hlen. lia.
  - apply StronglySorted_take, Hsorted.
Qed.

Lemma top_sends_most_popular_first_witness :
  let listing m := {| Results := m |} in
  let ranked :=
    sortResultsByPopularity
      (merged (listing [Result.withMediaType "tv" inception])
              (listing [Result.withMediaType "" breakingBad])) in
  length (imap (entryEvent 7) (take (Nat.min 20 (length ranked)) ranked))
  = 2%nat
  /\ StronglySorted popGe ranked.
Proof.
  destruct (top_sends_most_popular_first
              sampleEnv 7 emptyWorld
              {| Results := [Result.withMediaType "tv" inception] |}
              {| Results := [Result.withMediaType "" breakingBad] |}
              eq_refl eq_refl ltac:(discriminate)
              ltac:(repeat constructor))
    as (_ & Hlen & _ & Hsorted & _).
  split; [exact Hlen | exact Hsorted].
Defined.

(** The condition on the scores cannot be dropped from the sort itself: a
    NaN compares with nothing, so the loop never moves it nor what is around
    it.  Such a score does not come out of the JSON decoder. *)
Lemma ranking_needs_comparable_scores :
  let r p := Result.mk 0 "" "" "" "" "" "" "" p in
  let l := [r (someFloat 1 0); r S754_nan; r (someFloat 1 1)] in
  sortResultsByPopularity l = l /\ ~ StronglySorted popGe l.
Proof.
  split; [reflexivity|]. intros H.
  apply StronglySorted_inv in H as [_ H].
  apply Forall_cons in H as [H _]. discriminate H.
Qed.

(** ** Byte-indexed truncation and UTF-8 *)

Lemma runes_eq c0 s1 :
  runes (String c0 s1) =
    let b0 := byte c0 in
    let invalid := mkRune RuneError (str1 c0) :: runes s1 in
    if b0 <? 0x80 then mkRune b0 (str1 c0) :: runes s1
    else if (b0 <? 0xC2) || (0xF4 <? b0) then invalid
    else
      match s1 with
      | EmptyString => invalid
      | String c1 s2 =>
        let b1 := byte c1 in
        if negb (accept b0 b1) then invalid
        else if b0 <? 0xE0 then mkRune (rune2 b0 b1) (str2 c0 c1) :: runes s2
        else
          match s2 with
          | EmptyString => invalid
          | String c2 s3 =>
            let b2 := byte c2 in
            if negb (cont b2) then invalid
            else if b0 <? 0xF0 then
              mkRune (rune3 b0 b1 b2) (str3 c0 c1 c2) :: runes s3
            else
              match s3 with
              | EmptyString => invalid
              | String c3 s4 =>
                let b3 := byte c3 in
                if negb (cont b3) then invalid
                else mkRune (rune4 b0 b1 b2 b3) (str4 c0 c1 c2 c3) :: runes s4
              end
          end
      end.
Proof. reflexivity. Qed.

Lemma append_cons c s t : String c s +:+ t = String c (s +:+ t).
Proof. reflexivity. Qed.

Lemma append_nil t : "" +:+ t = t.
Proof. reflexivity. Qed.

Lemma accept_ascii b0 b1 : b1 < 0x80 -> accept b0 b1 = false.
Proof. intros H. unfold accept, cont. repeat case_match; lia. Qed.

Lemma cont_ascii b : b < 0x80 -> cont b = false.
Proof. intros H. unfold cont. lia. Qed.

(** The two kinds of leaves in the case analysis of the decoder on
    [s +:+ t]: the induction hypothesis closes the goal, or the bytes of [s]
    run out and the next byte is the ASCII head of [t]. *)
Ltac leaf IH :=
  first [ subst; reflexivity
        | cbn [app]; f_equal; apply IH;
          [cbn [String.length] in *; lia | assumption] ].

Ltac tail_end Hc :=
  rewrite append_nil;
  match goal with
  | |- context [match ?t with _ => _ end] =>
    destruct t as [|? ?]; cbv iota;
    [| rewrite ?(accept_ascii _ _ (Hc _ _ eq_refl)),
               ?(cont_ascii _ (Hc _ _ eq_refl)); cbn [negb] ]
  end.

Lemma runes_app_ascii :
  forall n s t, (String.length s <= n)%nat -> asciiHead t = true ->
    runes (s +:+ t) = runes s ++ runes t.
Proof.
  induction n as [|n IH]; intros s t Hlen Ht.
  - destruct s; [reflexivity|cbn in Hlen; lia].
  - destruct s as [|c0 s1]; [reflexivity|]. cbn [String.length] in Hlen.
    rewrite append_cons, !runes_eq. cbv zeta.
    remember (runes (s1 +:+ t)) as tl eqn:Htl.
    rewrite (IH s1 t) in Htl by (lia || assumption).
    assert (Hc : forall c t', t = String c t' -> byte c < 0x80)
      by (intros c t' ->; cbn in Ht; lia).
    destruct (byte c0 <? 0x80); [leaf IH|].
    destruct ((byte c0 <? 0xC2) || (0xF4 <? byte c0)); [leaf IH|].
    destruct s1 as [|c1 s2]; [tail_end Hc; leaf IH|].
    rewrite append_cons. cbv iota.
    destruct (negb (accept (byte c0) (byte c1))); [leaf IH|].
    destruct (byte c0 <? 0xE0); [leaf IH|].
    destruct s2 as [|c2 s3]; [tail_end Hc; leaf IH|].
    rewrite append_cons. cbv iota.
    destruct (negb (cont (byte c2))); [leaf IH|].
    destruct (byte c0 <? 0xF0); [leaf IH|].
    destruct s3 as [|c3 s4]; [tail_end Hc; leaf IH|].
    rewrite append_cons. cbv iota.
    destruct (negb (cont (byte c3))); leaf IH.
Qed.

Lemma ValidString_cons_runes r rs :
  forallb (fun r => negb (is_invalid r)) (r :: rs)
  = negb (is_invalid r) && forallb (fun r => negb (is_invalid r)) rs.
Proof. reflexivity. Qed.

Lemma sliceTo_S k c s : sliceTo (S k) (String c s) = String c (sliceTo k s).
Proof. reflexivity. Qed.

Lemma truncated_invalid :
  forall n s k, (String.length s <= n)%nat ->
    ValidString s = true -> splits (runes s) k = true ->
    ValidString (sliceTo k s) = false.
Proof.
  unfold ValidString.
  induction n as [|n IH]; intros s k Hlen Hv Hk.
  - destruct s; [discriminate|cbn in Hlen; lia].
  - destruct s as [|c0 s1]; [discriminate|]. cbn [String.length] in Hlen.
    rewrite runes_eq in Hv, Hk. cbv zeta in Hv, Hk.
    destruct (byte c0 <? 0x80) eqn:E0.
    { rewrite ValidString_cons_runes in Hv.
      apply andb_true_iff in Hv as [_ Hv]. cbn [splits bytes str1 String.length] in Hk.
      destruct k as [|k]; [discriminate|].
      rewrite sliceTo_S, runes_eq. cbv zeta. rewrite E0.
      rewrite ValidString_cons_runes, (IH s1 k); [apply andb_false_r|lia|exact Hv|].
      replace (S k - 1)%nat with k in Hk by lia. exact Hk. }
    destruct ((byte c0 <? 0xC2) || (0xF4 <? byte c0)) eqn:E1;
      [discriminate Hv|].
    destruct s1 as [|c1 s2]; [discriminate Hv|].
    destruct (negb (accept (byte c0) (byte c1))) eqn:E2; [discriminate Hv|].
    destruct (byte c0 <? 0xE0) eqn:E3.
    { rewrite ValidString_cons_runes in Hv.
      apply andb_true_iff in Hv as [_ Hv].
      cbn [splits bytes str1 str2 String.length] in Hk.
      destruct k as [|[|k]]; [discriminate| |].
      - cbn [sliceTo]. rewrite runes_eq. cbv zeta. rewrite E0, E1. reflexivity.
      - rewrite !sliceTo_S, runes_eq. cbv zeta. rewrite E0, E1, E2, E3.
        rewrite ValidString_cons_runes, (IH s2 k);
          [apply andb_false_r|cbn [String.length] in Hlen; lia|exact Hv|].
        replace (S (S k) - 2)%nat with k in Hk by lia. exact Hk. }
    destruct s2 as [|c2 s3]; [discriminate Hv|].
    destruct (negb (cont (byte c2))) eqn:E4; [discriminate Hv|].
    destruct (byte c0 <? 0xF0) eqn:E5.
    { rewrite ValidString_cons_runes in Hv.
      apply andb_true_iff in Hv as [_ Hv].
      cbn [splits bytes str1 str2 str3 String.length] in Hk.
      destruct k as [|[|[|k]]]; [discriminate| | |].
      - cbn [sliceTo]. rewrite runes_eq. cbv zeta. rewrite E0, E1. reflexivity.
      - cbn [sliceTo]. rewrite runes_eq. cbv zeta. rewrite E0, E1, E2, E3.
        reflexivity.
      - rewrite !sliceTo_S, runes_eq. cbv zeta. rewrite E0, E1, E2, E3, E4, E5.
        rewrite ValidString_cons_runes, (IH s3 k);
          [apply andb_false_r|cbn [String.length] in Hlen; lia|exact Hv|].
        replace (S (S (S k)) - 3)%nat with k in Hk by lia. exact Hk. }
    destruct s3 as [|c3 s4]; [discriminate Hv|].
    destruct (negb (cont (byte c3))) eqn:E6; [discriminate Hv|].
    rewrite ValidString_cons_runes in Hv.
    apply andb_true_iff in Hv as [_ Hv].
    cbn [splits bytes str1 str2 str3 str4 String.length] in Hk.
    destruct k as [|[|[|[|k]]]]; [discriminate| | | |].
    + cbn [sliceTo]. rewrite runes_eq. cbv zeta. rewrite E0, E1. reflexivity.
    + cbn [sliceTo]. rewrite runes_eq. cbv zeta. rewrite E0, E1, E2, E3.
      reflexivity.
    + cbn [sliceTo]. rewrite runes_eq. cbv zeta.
      rewrite E0, E1, E2, E3, E4, E5. reflexivity.
    + rewrite !sliceTo_S, runes_eq. cbv zeta.
      rewrite E0, E1, E2, E3, E4, E5, E6.
      rewrite ValidString_cons_runes, (IH s4 k);
        [apply andb_false_r|cbn [String.length] in Hlen; lia|exact Hv|].
      replace (S (S (S (S k))) - 4)%nat with k in Hk by lia. exact Hk.
Qed.

Lemma length_append (a b : string) :
  String.length (a +:+ b) = (String.length a + String.length b)%nat.
Proof.
  induction a as [|c a IH]; [reflexivity|].
  rewrite append_cons. cbn [String.length Nat.add]. rewrite IH. reflexivity.
Qed.

Lemma sliceTo_length (k : nat) (s : string) :
  (k <= String.length s)%nat -> String.length (sliceTo k s) = k.
Proof.
  revert s. induction k as [|k IH]; intros [|c s] H; cbn in *;
    try reflexivity; try lia.
  rewrite IH; [reflexivity|lia].
Qed.

Lemma sliceTo_sliceFrom (k : nat) (s : string) :
  sliceTo k s +:+ sliceFrom k s = s.
Proof.
  revert s. induction k as [|k IH]; intros [|c s]; cbn; try reflexivity.
  rewrite append_cons, IH. reflexivity.
Qed.

(** Decoding loses no byte. *)
Lemma bytesOf_runes : forall n s, (String.length s <= n)%nat ->
  bytesOf (runes s) = s.
Proof.
  induction n as [|n IH]; intros s Hlen.
  - destruct s; [reflexivity|cbn in Hlen; lia].
  - destruct s as [|c0 s1]; [reflexivity|]. cbn [String.length] in Hlen.
    rewrite runes_eq. cbv zeta.
    assert (H1 : bytesOf (mkRune RuneError (str1 c0) :: runes s1)
                 = String c0 s1).
    { cbn [bytesOf foldr bytes]. fold (bytesOf (runes s1)).
      rewrite (IH s1) by lia. reflexivity. }
    destruct (byte c0 <? 0x80).
    { cbn [bytesOf foldr bytes]. fold (bytesOf (runes s1)).
      rewrite (IH s1) by lia. reflexivity. }
    destruct ((byte c0 <? 0xC2) || (0xF4 <? byte c0)); [exact H1|].
    destruct s1 as [|c1 s2]; [exact H1|].
    destruct (negb (accept (byte c0) (byte c1))); [exact H1|].
    destruct (byte c0 <? 0xE0).
    { cbn [bytesOf foldr bytes]. fold (bytesOf (runes s2)).
      rewrite (IH s2) by (cbn in Hlen; lia). reflexivity. }
    destruct s2 as [|c2 s3]; [exact H1|].
    destruct (negb (cont (byte c2))); [exact H1|].
    destruct (byte c0 <? 0xF0).
    { cbn [bytesOf foldr bytes]. fold (bytesOf (runes s3)).
      rewrite (IH s3) by (cbn in Hlen; lia). reflexivity. }
    destruct s3 as [|c3 s4]; [exact H1|].
    destruct (negb (cont (byte c3))); [exact H1|].
    cbn [bytesOf foldr bytes]. fold (bytesOf (runes s4)).
    rewrite (IH s4) by (cbn in Hlen; lia). reflexivity.
Qed.

Lemma splits_lt (rs : list Rune) :
  forall k, splits rs k = true -> (k < String.length (bytesOf rs))%nat.
Proof.
  induction rs as [|r rs IH]; intros k; [discriminate|].
  cbn [splits bytesOf foldr]. fold (bytesOf rs). rewrite length_append.
  destruct (Nat.ltb_spec k (String.length (bytes r))) as [Hk|Hk]; [lia|].
  intros Hs. apply IH in Hs. lia.
Qed.

Lemma ValidString_app (rs1 rs2 : list Rune) :
  forallb (fun r => negb (is_invalid r)) rs1 = false ->
  forallb (fun r => negb (is_invalid r)) (rs1 ++ rs2) = false.
Proof. intros H. rewrite forallb_app, H. reflexivity. Qed.

(** C9: for a bound that is not negative, [limitString] returns the string
    itself when it has at most [n] bytes and otherwise its first [n] bytes
    followed by three dots, so the result has at most [n+3] bytes.  The cut
    counts bytes: when offset [n] falls inside a multi-byte character of a
    valid UTF-8 string, the prefix that is kept, and with it the result, is
    not valid UTF-8. *)
Theorem limitString_cuts_at_byte (s : string) (n : Z) :
  0 <= n ->
  (len s <= n -> limitString s n = Some s)
  /\ (n < len s ->
        limitString s n = Some (sliceTo (Z.to_nat n) s +:+ "...")
        /\ len (sliceTo (Z.to_nat n) s) = n
        /\ sliceTo (Z.to_nat n) s +:+ sliceFrom (Z.to_nat n) s = s)
  /\ (exists out, limitString s n = Some out /\ len out <= n + 3)
  /\ (ValidString s = true ->
      splits (runes s) (Z.to_nat n) = true ->
      n < len s
      /\ ValidString (sliceTo (Z.to_nat n) s) = false
      /\ exists out, limitString s n = Some out /\ ValidString out = false).
Proof.
  intros Hn. unfold limitString, len.
  assert (Hcut : n < Z.of_nat (String.length s) ->
            (if Z.of_nat (String.length s) <=? n then Some s
             else if n <? 0 then None
             else Some (sliceTo (Z.to_nat n) s +:+ "..."))
            = Some (sliceTo (Z.to_nat n) s +:+ "...")).
  { intros Hlt.
    replace (Z.of_nat (String.length s) <=? n) with false by lia.
    replace (n <? 0) with false by lia. reflexivity. }
  split; [|split; [|split]].
  - intros Hle.
    replace (Z.of_nat (String.length s) <=? n) with true by lia. reflexivity.
  - intros Hlt. split; [exact (Hcut Hlt)|]. split.
    + rewrite sliceTo_length; lia.
    + apply sliceTo_sliceFrom.
  - destruct (Z.leb_spec (Z.of_nat (String.length s)) n) as [Hle|Hlt].
    + exists s. split; [reflexivity|]. lia.
    + replace (n <? 0) with false by lia. eexists. split; [reflexivity|].
      rewrite length_append, sliceTo_length by lia. cbn. lia.
  - intros Hv Hsp.
    assert (Hlt : n < Z.of_nat (String.length s)).
    { apply splits_lt in Hsp.
      rewrite (bytesOf_runes _ s (le_n _)) in Hsp. lia. }
    pose proof (truncated_invalid _ s (Z.to_nat n) (le_n _) Hv Hsp) as Hcutv.
    split; [exact Hlt|]. split; [exact Hcutv|].
    eexists. split; [exact (Hcut Hlt)|].
    unfold ValidString in *.
    rewrite (runes_app_ascii _ _ "..." (le_n _) eq_refl).
    apply ValidString_app, Hcutv.
Qed.

Lemma limitString_cuts_at_byte_witness :
  limitString "né" 2 = Some (sliceTo 2 "né" +:+ "...")
  /\ ValidString "né" = true
  /\ ValidString (sliceTo 2 "né") = false.
Proof.
  destruct (limitString_cuts_at_byte "né" 2 ltac:(discriminate))
    as (_ & Hcut & _ & Hsplit).
  destruct (Hcut eq_refl) as (H1 & _).
  destruct (Hsplit eq_refl eq_refl) as (_ & H2 & _).
  repeat split; assumption.
Defined.

(** A negative bound makes the slice expression panic. *)
Lemma limitString_negative (s : string) (n : Z) :
  n < 0 -> limitString s n = None.
Proof.
  intros Hn. unfold limitString, len.
  pose proof (Nat2Z.is_nonneg (String.length s)) as Hlen.
  replace (Z.of_nat (String.length s) <=? n) with false by lia.
  replace (n <? 0) with true by lia. reflexivity.
Qed.

(** ** Parsing the argument of /update *)

Lemma append_assoc (a b c : string) : (a +:+ b) +:+ c = a +:+ (b +:+ c).
Proof.
  induction a as [|x a IH]; [reflexivity|].
  rewrite !append_cons, IH. reflexivity.
Qed.

Lemma append_nil_r (a : string) : a +:+ "" = a.
Proof.
  induction a as [|x a IH]; [reflexivity|]. rewrite append_cons, IH.
  reflexivity.
Qed.

Lemma fieldsFrom_space (f : Z -> bool) (rs1 : list Rune) (r : Rune)
    (rs2 : list Rune) :
  f (code r) = true ->
  forall cur,
    fieldsFrom f (rs1 ++ r :: rs2) cur
    = fieldsFrom f rs1 cur ++ fieldsFrom f rs2 None.
Proof.
  intros Hr. induction rs1 as [|x rs1 IH]; intros cur.
  - cbn [app fieldsFrom]. rewrite Hr. destruct cur; reflexivity.
  - cbn [app fieldsFrom]. destruct (f (code x)), cur; rewrite IH; reflexivity.
Qed.

Lemma Fields_space (a b : string) :
  Fields (a +:+ " " +:+ b) = Fields a ++ Fields b.
Proof.
  unfold Fields, FieldsFunc.
  rewrite (runes_app_ascii _ a (" " +:+ b) (le_n _) eq_refl).
  change (runes (" " +:+ b)) with (mkRune 0x20 " " :: runes b).
  apply fieldsFrom_space. reflexivity.
Qed.

Lemma fieldsFrom_plain (s : string) :
  plain s = true ->
  forall w, fieldsFrom IsSpace (runes s) (Some w) = [w +:+ s].
Proof.
  induction s as [|c s IH]; intros Hp w.
  - cbn. rewrite append_nil_r. reflexivity.
  - cbn [plain] in Hp. apply andb_true_iff in Hp as [Hc Hp].
    apply andb_true_iff in Hc as [Hascii Hspace].
    rewrite runes_eq. cbv zeta. rewrite Hascii. cbn [fieldsFrom code bytes].
    apply negb_true_iff in Hspace. rewrite Hspace, (IH Hp).
    rewrite append_assoc. reflexivity.
Qed.

Lemma Fields_plain (s : string) :
  plain s = true -> s <> "" -> Fields s = [s].
Proof.
  destruct s as [|c s]; [congruence|]. intros Hp _.
  unfold Fields, FieldsFunc. cbn [plain] in Hp.
  apply andb_true_iff in Hp as [Hc Hp].
  apply andb_true_iff in Hc as [Hascii Hspace].
  rewrite runes_eq. cbv zeta. rewrite Hascii. cbn [fieldsFrom code bytes].
  apply negb_true_iff in Hspace. rewrite Hspace.
  apply (fieldsFrom_plain s Hp).
Qed.

Lemma digit_plain (c : ascii) (d : Z) :
  digit c = Some d -> (byte c <? 0x80) && negb (IsSpace (byte c)) = true.
Proof.
  unfold digit. cbv zeta.
  destruct ((0x30 <=? byte c) && (byte c <=? 0x39)) eqn:E; [|discriminate].
  intros _. unfold IsSpace. lia.
Qed.

Lemma digits_plain (s : string) :
  forall acc v, digits s acc = Some v -> plain s = true.
Proof.
  induction s as [|c s IH]; intros acc v H; [reflexivity|].
  cbn [digits] in H. destruct (digit c) as [d|] eqn:Hd; [|discriminate].
  cbn [plain]. rewrite (digit_plain _ _ Hd). exact (IH _ _ H).
Qed.

(** What [strconv.Atoi] accepts is a single field. *)
Lemma Atoi_plain (e : string) (v : Z) :
  Atoi e = Some v -> plain e = true /\ e <> "".
Proof.
  destruct e as [|c rest]; [discriminate|]. unfold Atoi.
  split; [|discriminate]. revert H. cbv zeta.
  destruct ((byte c =? 0x2D) || (byte c =? 0x2B)) eqn:Hsign.
  - destruct rest as [|c' rest']; [discriminate|].
    destruct (digits (String c' rest') 0) as [n|] eqn:Hd; [|discriminate].
    intros _. change (plain (String c (String c' rest')))
      with ((byte c <? 0x80) && negb (IsSpace (byte c))
            && plain (String c' rest')).
    rewrite (digits_plain _ _ _ Hd).
    unfold IsSpace. lia.
  - destruct (digits (String c rest) 0) as [n|] eqn:Hd; [|discriminate].
    intros _. exact (digits_plain _ _ _ Hd).
Qed.

(** *** [Atoi] reads back what [%d] prints *)

Lemma digits_step (c : ascii) (s : string) (acc k : Z) :
  digit c = Some k -> digits (String c s) acc = digits s (acc * 10 + k).
Proof. intros H. cbn [digits]. rewrite H. reflexivity. Qed.

Ltac digit_step :=
  first [ rewrite (digits_step "0"%char _ _ 0 eq_refl)
        | rewrite (digits_step "1"%char _ _ 1 eq_refl)
        | rewrite (digits_step "2"%char _ _ 2 eq_refl)
        | rewrite (digits_step "3"%char _ _ 3 eq_refl)
        | rewrite (digits_step "4"%char _ _ 4 eq_refl)
        | rewrite (digits_step "5"%char _ _ 5 eq_refl)
        | rewrite (digits_step "6"%char _ _ 6 eq_refl)
        | rewrite (digits_step "7"%char _ _ 7 eq_refl)
        | rewrite (digits_step "8"%char _ _ 8 eq_refl)
        | rewrite (digits_step "9"%char _ _ 9 eq_refl) ].

Lemma digits_of_uint_acc (d : Decimal.uint) :
  forall acc,
    digits (NilEmpty.string_of_uint d) (Z.pos acc)
    = Some (Z.pos (Pos.of_uint_acc d acc)).
Proof.
  induction d as [|d IH|d IH|d IH|d IH|d IH|d IH|d IH|d IH|d IH|d IH];
    intros acc; cbn [NilEmpty.string_of_uint Pos.of_uint_acc];
    [reflexivity|..];
    digit_step; rewrite <- IH; f_equal; lia.
Qed.

Lemma digits_of_uint (d : Decimal.uint) :
  digits (NilEmpty.string_of_uint d) 0 = Some (Z.of_N (Pos.of_uint d)).
Proof.
  induction d as [|d IH|d IH|d IH|d IH|d IH|d IH|d IH|d IH|d IH|d IH];
    cbn [NilEmpty.string_of_uint Pos.of_uint];
    [reflexivity|..];
    digit_step; [exact IH|..]; apply digits_of_uint_acc.
Qed.

Lemma Atoi_digit_head (c : ascii) (rest : string) (k : Z) :
  digit c = Some k ->
  Atoi (String c rest)
  = match digits (String c rest) 0 with
    | Some n => if (minInt <=? n) && (n <=? maxInt) then Some n else None
    | None => None
    end.
Proof.
  unfold digit. cbv zeta.
  destruct ((0x30 <=? byte c) && (byte c <=? 0x39)) eqn:E; [|discriminate].
  intros _. unfold Atoi. cbv zeta.
  replace (byte c =? 0x2D) with false by lia.
  replace (byte c =? 0x2B) with false by lia. reflexivity.
Qed.

Lemma string_of_uint_head (d : Decimal.uint) :
  d <> Decimal.Nil ->
  exists c rest k,
    NilEmpty.string_of_uint d = String c rest /\ digit c = Some k.
Proof.
  destruct d; [congruence|..]; intros _; do 3 eexists;
    (split; [reflexivity|reflexivity]).
Qed.

Lemma Atoi_Itoa (n : Z) : 0 <= n <= maxInt -> Atoi (Itoa n) = Some n.
Proof.
  intros Hn. destruct n as [|p|p]; [reflexivity| |lia].
  unfold Itoa. cbn [Z.to_int NilZero.string_of_int].
  pose proof (Stdlib.Numbers.DecimalPos.Unsigned.to_uint_nonnil p) as Hnil.
  assert (Hs : NilZero.string_of_uint (Pos.to_uint p)
               = NilEmpty.string_of_uint (Pos.to_uint p))
    by (destruct (Pos.to_uint p); [congruence|reflexivity..]).
  rewrite Hs.
  destruct (string_of_uint_head _ Hnil) as (c & rest & k & Heq & Hk).
  pose proof (digits_of_uint (Pos.to_uint p)) as Hd.
  rewrite Stdlib.Numbers.DecimalPos.Unsigned.of_to in Hd. rewrite Heq in Hd |- *.
  rewrite (Atoi_digit_head _ _ _ Hk), Hd. cbn [Z.of_N].
  unfold minInt, maxInt in *.
  replace ((- 2 ^ 63 <=? Z.pos p) && (Z.pos p <=? 2 ^ 63 - 1)) with true
    by lia.
  reflexivity.
Qed.

(** *** The title /update looks up *)

Lemma TrimPrefix_updateText (title token : string) :
  TrimPrefix (updateText title token) "/update " = title +:+ " " +:+ token.
Proof. reflexivity. Qed.

Lemma append_space_nonempty (a b : string) : a +:+ " " +:+ b <> "".
Proof. destruct a; discriminate. Qed.

Lemma allButLast_snoc (words : list string) (tok : string) :
  allButLast (words ++ [tok]) = words.
Proof.
  unfold allButLast. apply take_app_length'. rewrite length_app. cbn. lia.
Qed.

(** The parse of [title], a space and a token that [Atoi] reads as a
    non-negative number. *)
Lemma parseUpdate_title_token (title token : string) (episode : Z) :
  Atoi token = Some episode -> 0 <= episode ->
  Fields (title +:+ " " +:+ token) = Fields title ++ [token]
  /\ parseUpdate (title +:+ " " +:+ token)
     = match Fields title with
       | [] => Usage
       | words => Args (Join words " ") episode
       end.
Proof.
  intros HA Hge. destruct (Atoi_plain _ _ HA) as [Hp Hne].
  assert (HF : Fields (title +:+ " " +:+ token) = Fields title ++ [token])
    by (rewrite Fields_space, (Fields_plain _ Hp Hne); reflexivity).
  split; [exact HF|]. unfold parseUpdate.
  rewrite (eqb_false_of_neq _ _ (append_space_nonempty title token)), HF.
  destruct (Fields title) as [|w ws]; [reflexivity|].
  replace (length ((w :: ws) ++ [token]) <? 2)%nat with false
    by (symmetry; apply Nat.ltb_ge; rewrite length_app; cbn [length]; lia).
  rewrite last_snoc. cbn [mbind option_bind]. rewrite HA.
  replace (episode <? 0) with false by lia.
  rewrite allButLast_snoc. reflexivity.
Qed.

Lemma Fields_empty : Fields "" = [].
Proof. reflexivity. Qed.

(** C6, as the code has it: the argument of /update is split into fields at
    white space, the last field is the episode and the other fields, joined
    by single spaces, are the title that is looked up.  So for the text made
    of /update, a title, a space and an episode number, the title looked up
    is the given one exactly when the title is not empty and equals its own
    fields joined by single spaces.  A title that has words but is not of
    that form is looked up as its words joined by single spaces, which is
    another string; a title without a word (empty or blank) leaves a single
    field, and the usage reply is sent without a lookup. *)
Theorem update_parse_recovers_normalized_title (title : string) :
  (forall query t episode,
      parseUpdate query = Args t episode ->
      exists words token,
        Fields query = words ++ [token]
        /\ words <> []
        /\ Atoi token = Some episode
        /\ 0 <= episode
        /\ t = Join words " ")
  /\ (forall token episode,
        Atoi token = Some episode -> 0 <= episode ->
        let query := TrimPrefix (updateText title token) "/update " in
        Fields query = Fields title ++ [token]
        /\ (parseUpdate query = Args title episode <-> normalized title))
  /\ (forall episode,
        0 <= episode <= maxInt ->
        normalized title ->
        parseUpdate (TrimPrefix (updateText title (Itoa episode)) "/update ")
        = Args title episode)
  /\ (forall token episode,
        Atoi token = Some episode -> 0 <= episode ->
        let query := TrimPrefix (updateText title token) "/update " in
        parseUpdate query
        = match Fields title with
          | [] => Usage
          | words => Args (Join words " ") episode
          end)
  /\ (forall token episode,
        Atoi token = Some episode -> 0 <= episode ->
        Fields title <> [] -> ~ normalized title ->
        let query := TrimPrefix (updateText title token) "/update " in
        parseUpdate query = Args (Join (Fields title) " ") episode
        /\ Join (Fields title) " " <> title)
  /\ (forall env chatID w token episode,
        Atoi token = Some episode -> 0 <= episode ->
        let query := TrimPrefix (updateText title token) "/update " in
        (Fields title = [] ->
         handleUpdate env chatID query w
         = sendMessage chatID msgUpdateUsage w)
        /\ (Fields title <> [] ->
            find (matchesTitle chatID (Join (Fields title) " ")) (watched w)
            = None ->
            handleUpdate env chatID query w
            = sendMessage chatID msgNotInList w)).
Proof.
  assert (Hkey : forall token episode,
    Atoi token = Some episode -> 0 <= episode ->
    parseUpdate (TrimPrefix (updateText title token) "/update ")
    = match Fields title with
      | [] => Usage
      | words => Args (Join words " ") episode
      end).
  { intros token episode HA Hge. rewrite TrimPrefix_updateText.
    exact (proj2 (parseUpdate_title_token title token episode HA Hge)). }
  assert (Hmid : forall token episode,
    Atoi token = Some episode -> 0 <= episode ->
    let query := TrimPrefix (updateText title token) "/update " in
    Fields query = Fields title ++ [token]
    /\ (parseUpdate query = Args title episode <-> normalized title)).
  { intros token episode HA Hge query. subst query.
    rewrite TrimPrefix_updateText.
    destruct (parseUpdate_title_token title token episode HA Hge) as [HF HP].
    split; [exact HF|]. rewrite HP. unfold normalized.
    destruct (Fields title) as [|w ws] eqn:E.
    - split; [discriminate|]. intros [Hne HJ]. cbn in HJ. congruence.
    - split.
      + intros [= HJ]. split; [|exact HJ].
        intros ->. rewrite Fields_empty in E. discriminate.
      + intros [_ HJ]. rewrite HJ. reflexivity. }
  split; [|split; [exact Hmid|split; [|split; [exact Hkey|split]]]].
  - intros query t episode. unfold parseUpdate.
    destruct (String.eqb query ""); [discriminate|].
    destruct (length (Fields query) <? 2)%nat eqn:Hlen; [discriminate|].
    destruct (last (Fields query)) as [token|] eqn:Hlast; [|discriminate].
    cbn [mbind option_bind].
    destruct (Atoi token) as [n|] eqn:HA; [|discriminate].
    destruct (n <? 0) eqn:Hneg; [discriminate|].
    intros [= <- <-]. apply last_Some in Hlast as [words Hw].
    exists words, token. rewrite Hw, allButLast_snoc.
    repeat split; try assumption; [|lia].
    intros ->. rewrite Hw in Hlen. cbn in Hlen. discriminate.
  - intros episode Hrange Hnorm.
    apply (Hmid (Itoa episode) episode); [apply Atoi_Itoa, Hrange|lia|].
    exact Hnorm.
  - intros token episode HA Hge Hwords Hnot query. subst query.
    rewrite (Hkey token episode HA Hge).
    destruct (Fields title) as [|x xs] eqn:E; [congruence|].
    split; [reflexivity|]. intros HJ. apply Hnot.
    split; [|rewrite E; exact HJ].
    intros ->. rewrite Fields_empty in E. discriminate.
  - intros env chatID w token episode HA Hge query. subst query.
    unfold handleUpdate. rewrite (Hkey token episode HA Hge). split.
    + intros ->. reflexivity.
    + intros Hwords Hfind.
      destruct (Fields title) as [|x xs] eqn:E; [congruence|].
      unfold selectByTitle. rewrite Hfind.
      destruct (queryFails env); reflexivity.
Qed.

Lemma update_parse_recovers_normalized_title_witness :
  parseUpdate (TrimPrefix (updateText "Breaking Bad" (Itoa 7)) "/update ")
  = Args "Breaking Bad" 7.
Proof.
  destruct (update_parse_recovers_normalized_title "Breaking Bad")
    as (_ & _ & H & _).
  apply (H 7).
  - split; discriminate.
  - split; [discriminate|reflexivity].
Defined.

(** The title looked up for a stored title with two spaces in a row is not
    that title, and the row is reported as not found. *)
Lemma update_parse_collapses_spaces :
  parseUpdate (TrimPrefix (updateText "Breaking  Bad" (Itoa 7)) "/update ")
  = Args "Breaking Bad" 7
  /\ "Breaking Bad" <> "Breaking  Bad"
  /\ parseUpdate (TrimPrefix (updateText "Breaking  Bad" (Itoa 7)) "/update ")
     <> Args "Breaking  Bad" 7
  /\ dispatch sampleEnv 7 (updateText "Breaking  Bad" (Itoa 7))
              (mkWorld ∅ spacedTable [])
     = sendMessage 7 msgNotInList (mkWorld ∅ spacedTable []).
Proof. repeat split; try discriminate; reflexivity. Qed.


(** * Further properties of the handlers *)

(** ** What handling one message can do *)

Ltac states_leaf :=
  first [ left; reflexivity
        | right; right; reflexivity
        | right; left; eexists; split; [|split]; [| |reflexivity];
          [reflexivity|assumption] ].

Ltac rows_leaf :=
  first [ left; reflexivity
        | right; left; eexists; split; [|reflexivity]; reflexivity
        | right; right; do 2 eexists; reflexivity ].

Ltac trace_leaf :=
  eexists; split; [cbn [trace emit sendMessage sendPhoto logPrintf setState deleteState
                        fmap option_fmap option_map];
                   rewrite <- ?app_assoc; reflexivity|];
  split; [repeat constructor | reflexivity].

Ltac frame_leaf := split; [states_leaf | split; [rows_leaf | trace_leaf]].

Lemma handleAdd_frame env chatID query w :
  frame chatID w (handleAdd env chatID query w).
Proof.
  unfold handleAdd, searchTMDB, insertWatched.
  destruct (String.eqb query ""); [frame_leaf|].
  destruct (Results <$> searchResponse env query) as [[|result rest]|];
    [frame_leaf| |frame_leaf].
  destruct (String.eqb_spec (Result.MediaType result) "tv") as [Hk|Hk].
  - frame_leaf.
  - destruct (execFails env); [frame_leaf|].
    destruct (negb (String.eqb (Result.PosterPath result) "")); frame_leaf.
Qed.

Lemma handleEpisodeInput_frame env chatID text state w :
  frame chatID w (handleEpisodeInput env chatID text state w).
Proof.
  unfold handleEpisodeInput, searchTMDB, insertWatched.
  destruct (Atoi text) as [episode|]; [|frame_leaf].
  destruct (episode <? 0); [frame_leaf|].
  destruct (execFails env); [frame_leaf|].
  destruct (Results <$> searchResponse env (ConversationState.Title state))
    as [[|first rest]|]; try frame_leaf.
  destruct ((Result.ID first =? ConversationState.TMDBID state)
            && negb (String.eqb (Result.PosterPath first) "")); frame_leaf.
Qed.

Lemma handleUpdate_frame env chatID query w :
  frame chatID w (handleUpdate env chatID query w).
Proof.
  unfold handleUpdate, selectByTitle, updateEpisode.
  destruct (parseUpdate query) as [| |title episode]; try frame_leaf.
  destruct (queryFails env); [frame_leaf|].
  destruct (find (matchesTitle chatID title) (watched w)) as [m|];
    [|frame_leaf].
  destruct (negb (String.eqb (Movie.MediaType m) "tv")); [frame_leaf|].
  destruct (execFails env); frame_leaf.
Qed.

Lemma sendEntries_world chatID (results : list Result.t) :
  forall i w,
    conversationStates (sendEntries chatID i results w) = conversationStates w
    /\ watched (sendEntries chatID i results w) = watched w.
Proof.
  induction results as [|r results IH]; intros i w; [split; reflexivity|].
  cbn [sendEntries]. destruct (IH (S i) (sendEntry chatID i r w)) as [-> ->].
  rewrite sendEntry_emit. split; reflexivity.
Qed.

Lemma entryEvent_reply chatID i result :
  addressedTo chatID (entryEvent chatID i result)
  /\ isReply (entryEvent chatID i result) = true.
Proof.
  unfold entryEvent.
  destruct (negb (String.eqb (Result.PosterPath result) "")); split;
    reflexivity.
Qed.

Lemma entries_replies chatID (results : list Result.t) :
  forall f : nat -> nat,
    Forall (addressedTo chatID)
           (imap (fun k => entryEvent chatID (f k)) results)
    /\ (results <> [] ->
        existsb isReply (imap (fun k => entryEvent chatID (f k)) results)
        = true).
Proof.
  induction results as [|r results IH]; intros f.
  - split; [constructor|congruence].
  - cbn [imap]. destruct (IH (f ∘ S)) as [Hall _]. split.
    + constructor; [apply entryEvent_reply|exact Hall].
    + intros _. cbn [existsb].
      rewrite (proj2 (entryEvent_reply chatID (f 0%nat) r)). reflexivity.
Qed.

Lemma sendEntries_frame chatID (results : list Result.t) w0 w pre :
  results <> [] ->
  conversationStates w = conversationStates w0 ->
  watched w = watched w0 ->
  trace w = trace w0 ++ pre ->
  Forall (addressedTo chatID) pre ->
  frame chatID w0 (sendEntries chatID 0 results w).
Proof.
  intros Hne Hs Hr Ht Hpre.
  destruct (sendEntries_world chatID results 0%nat w) as [Hs' Hr'].
  split; [left; congruence|]. split; [left; congruence|].
  exists (pre ++ imap (fun k => entryEvent chatID (0 + k)) results).
  rewrite sendEntries_trace, Ht, <- app_assoc.
  destruct (entries_replies chatID results (fun k => (0 + k)%nat)) as [Ha He].
  split; [reflexivity|]. split.
  - apply Forall_app. split; assumption.
  - rewrite existsb_app, (He Hne). apply orb_true_r.
Qed.

Lemma take_min_nonempty {A} (n : nat) (l : list A) :
  l <> [] -> take (Nat.min (S n) (length l)) l <> [].
Proof. destruct l; [congruence|]. intros _. cbn. discriminate. Qed.

Lemma handleSearch_frame env chatID query w :
  frame chatID w (handleSearch env chatID query w).
Proof.
  unfold handleSearch, searchTMDB.
  destruct (String.eqb query ""); [frame_leaf|].
  destruct (Results <$> searchResponse env query) as [[|result rest]|];
    [frame_leaf| |frame_leaf].
  eapply sendEntries_frame; try reflexivity.
  - apply (take_min_nonempty 4). discriminate.
  - repeat constructor.
Qed.

Lemma handleList_frame env chatID w :
  frame chatID w (handleList env chatID w).
Proof.
  unfold handleList.
  destruct (selectByUser env chatID w) as [[|m rows]|]; frame_leaf.
Qed.

(** ** The sort, whatever the scores *)

Lemma swapStep_split (l : list Result.t) (j : nat) (a b : Result.t) :
  l !! j = Some a -> l !! S j = Some b ->
  exists pre rest, l = pre ++ a :: b :: rest /\ length pre = j.
Proof.
  intros Ha Hb. exists (take j l), (drop (S (S j)) l). split.
  - rewrite <- (drop_S l b (S j) Hb), <- (drop_S l a j Ha).
    symmetry. apply take_drop.
  - apply length_take_le. apply lookup_lt_Some in Ha. lia.
Qed.

Lemma swapStep_perm (l : list Result.t) (j : nat) : swapStep l j ≡ₚ l.
Proof.
  destruct (l !! j) as [a|] eqn:Ha;
    [|unfold swapStep; rewrite Ha; reflexivity].
  destruct (l !! S j) as [b|] eqn:Hb;
    [|unfold swapStep; rewrite Ha, Hb; reflexivity].
  destruct (swapStep_split l j a b Ha Hb) as (pre & rest & -> & <-).
  rewrite swapStep_at. destruct (popLt a b); [|reflexivity].
  apply Permutation_app_head, perm_swap.
Qed.

Lemma fold_swapStep_perm (js : list nat) :
  forall l : list Result.t, fold_left swapStep js l ≡ₚ l.
Proof.
  induction js as [|j js IH]; intros l; [reflexivity|].
  cbn [fold_left]. rewrite IH. apply swapStep_perm.
Qed.

Lemma bubblePass_perm (l : list Result.t) (i : nat) : bubblePass l i ≡ₚ l.
Proof. apply fold_swapStep_perm. Qed.

Lemma fold_bubblePass_perm (passes : list nat) :
  forall l : list Result.t, fold_left bubblePass passes l ≡ₚ l.
Proof.
  induction passes as [|i passes IH]; intros l; [reflexivity|].
  cbn [fold_left]. rewrite IH. apply bubblePass_perm.
Qed.

Lemma swapStep_ordered (l : list Result.t) (j : nat) :
  (forall a b, l !! j = Some a -> l !! S j = Some b -> popLt a b = false) ->
  swapStep l j = l.
Proof.
  intros H. unfold swapStep.
  destruct (l !! j) as [a|]; [|reflexivity].
  destruct (l !! S j) as [b|]; [|reflexivity].
  rewrite (H a b eq_refl eq_refl). reflexivity.
Qed.

(** X1: the sort never loses or repeats a result, whatever the scores are
    (a NaN included), and it leaves alone a list in which no result is less
    popular than its right neighbour. *)
Theorem sort_permutes_and_keeps_ordered (results : list Result.t) :
  sortResultsByPopularity results ≡ₚ results
  /\ length (sortResultsByPopularity results) = length results
  /\ ((forall j a b,
         results !! j = Some a -> results !! S j = Some b ->
         popLt a b = false) ->
      sortResultsByPopularity results = results).
Proof.
  assert (Hp : sortResultsByPopularity results ≡ₚ results)
    by apply fold_bubblePass_perm.
  split; [exact Hp|]. split; [rewrite Hp; reflexivity|].
  intros Hord. unfold sortResultsByPopularity.
  assert (Hpass : forall i, bubblePass results i = results).
  { intros i. unfold bubblePass.
    generalize (seq 0 (length results - i - 1)). intros js.
    induction js as [|j js IH]; [reflexivity|].
    cbn [fold_left]. rewrite (swapStep_ordered results j (Hord j)). exact IH. }
  generalize (seq 0 (length results - 1)). intros passes.
  induction passes as [|i passes IH]; [reflexivity|].
  cbn [fold_left]. rewrite Hpass. exact IH.
Qed.

Lemma sort_nonempty (results : list Result.t) :
  results <> [] -> sortResultsByPopularity results <> [].
Proof.
  intros Hne Hs. apply Hne.
  pose proof (fold_bubblePass_perm (seq 0 (length results - 1)) results)
    as Hp.
  fold (sortResultsByPopularity results) in Hp. rewrite Hs in Hp.
  apply Permutation_nil in Hp. exact Hp.
Qed.

Lemma handleTop_frame env chatID w :
  frame chatID w (handleTop env chatID w).
Proof.
  unfold handleTop, getTopMovies, getTopTVShows.
  destruct (popularMoviesResponse env) as [movies|]; [|frame_leaf].
  destruct (popularTVResponse env) as [shows|]; [|frame_leaf].
  cbn [fmap option_fmap option_map].
  destruct (length (Results (stamp "movie" movies)
                    ++ Results (stamp "tv" shows)) =? 0)%nat eqn:Hz;
    [frame_leaf|].
  apply (sendEntries_frame chatID _ w _ [PopularMovies; PopularTV]);
    try reflexivity.
  - apply (take_min_nonempty 19), sort_nonempty.
    intros He. rewrite He in Hz. discriminate.
  - cbn [emit trace]. rewrite <- app_assoc. reflexivity.
  - repeat constructor.
Qed.

Lemma command_frame env chatID text w :
  frame chatID w (command env chatID text w).
Proof.
  unfold command.
  repeat match goal with
  | |- context [if ?b then _ else _] => destruct b
  end;
  first [ apply handleAdd_frame | apply handleList_frame
        | apply handleSearch_frame | apply handleTop_frame
        | apply handleUpdate_frame | frame_leaf ].
Qed.

Lemma dispatch_frame env chatID text w :
  frame chatID w (dispatch env chatID text w).
Proof.
  unfold dispatch. destruct (awaiting chatID w).
  - apply handleEpisodeInput_frame.
  - apply command_frame.
Qed.

(** X2: whatever the text and whatever the outside answers, handling a
    message sends at least one reply, and every message or photo sent while
    handling it is addressed to the chat it came from. *)
Theorem every_message_is_answered_to_its_sender
    (env : Env) (chatID : Z) (text : string) (w : World) :
  exists evs,
    trace (dispatch env chatID text w) = trace w ++ evs
    /\ Forall (addressedTo chatID) evs
    /\ existsb isReply evs = true.
Proof. exact (proj2 (proj2 (dispatch_frame env chatID text w))). Qed.

(** ** Users do not interfere *)

Lemma rowsOf_setEpisodeOf other episode chatID tmdbID (rows : list Movie.t) :
  chatID <> other ->
  rowsOf other (map (setEpisodeOf episode chatID tmdbID) rows)
  = rowsOf other rows.
Proof.
  intros Hne. unfold rowsOf. induction rows as [|m rows IH]; [reflexivity|].
  cbn [map].
  assert (Hm : setEpisodeOf episode chatID tmdbID m = m
               \/ (Movie.UserID m = chatID
                   /\ setEpisodeOf episode chatID tmdbID m
                      = setEpisode episode m)).
  { unfold setEpisodeOf.
    destruct (Z.eqb_spec (Movie.UserID m) chatID); [|left; reflexivity].
    destruct (Movie.TMDBID m =? tmdbID); [right|left]; auto. }
  destruct Hm as [->|[Hu ->]].
  - rewrite !filter_cons, IH. reflexivity.
  - rewrite !filter_cons, IH. cbn [setEpisode Movie.UserID].
    destruct (decide (Movie.UserID m = other)); [congruence|reflexivity].
Qed.

Lemma dispatch_other_user env chatID text w other :
  chatID <> other ->
  conversationStates (dispatch env chatID text w) !! other
  = conversationStates w !! other
  /\ rowsOf other (watched (dispatch env chatID text w))
     = rowsOf other (watched w).
Proof.
  intros Hne.
  destruct (dispatch_frame env chatID text w) as (Hs & Hr & _). split.
  - destruct Hs as [->|[(st & _ & _ & ->)| ->]]; [reflexivity| |].
    + apply lookup_insert_ne, Hne.
    + apply lookup_delete_ne, Hne.
  - destruct Hr as [->|[(row & Hu & ->)|(ep & tmdb & ->)]]; [reflexivity| |].
    + unfold rowsOf. rewrite filter_app, filter_cons, filter_nil.
      destruct (decide (Movie.UserID row = other)); [congruence|].
      apply app_nil_r.
    + apply rowsOf_setEpisodeOf, Hne.
Qed.

(** X3: messages of other chats, however many, leave a user's conversation
    state and the user's rows as they are. *)
Theorem other_users_cannot_touch_my_state
    (updates : list (Env * Update)) (other : Z) (w : World) :
  Forall (notFrom other) updates ->
  conversationStates (run updates w) !! other = conversationStates w !! other
  /\ rowsOf other (watched (run updates w)) = rowsOf other (watched w).
Proof.
  intros Hall. revert w.
  induction Hall as [|[env u] updates Hu _ IH]; intros w; [split; reflexivity|].
  rewrite run_cons. cbn [fst snd].
  destruct (IH (handleUpdateEvent env u w)) as [-> ->].
  unfold handleUpdateEvent. destruct (Message u) as [[c text]|] eqn:Hm;
    [|split; reflexivity].
  apply dispatch_other_user. exact (Hu c text Hm).
Qed.

Lemma other_users_cannot_touch_my_state_witness :
  let updates :=
    [messageOf sampleEnv 8 "/add Inception";
     messageOf sampleEnv 8 "/update Breaking Bad 9";
     messageOf sampleEnv 9 "/add Breaking Bad"] in
  conversationStates (run updates watchingWorld) !! 7
  = conversationStates watchingWorld !! 7
  /\ rowsOf 7 (watched (run updates watchingWorld))
     = rowsOf 7 (watched watchingWorld).
Proof.
  apply (other_users_cannot_touch_my_state _ 7 watchingWorld).
  repeat constructor; intros c text [= <- _]; discriminate.
Defined.

Lemma setEpisodeOf_same episode chatID tmdbID m :
  sameButEpisode m (setEpisodeOf episode chatID tmdbID m)
  /\ (Movie.CurrentEpisode (setEpisodeOf episode chatID tmdbID m)
      <> Movie.CurrentEpisode m -> Movie.UserID m = chatID).
Proof.
  unfold setEpisodeOf, sameButEpisode.
  destruct (Z.eqb_spec (Movie.UserID m) chatID) as [Hu|Hu];
    [|cbn; repeat split; congruence].
  destruct (Movie.TMDBID m =? tmdbID); cbn; repeat split; congruence.
Qed.

(** X4: handling a message removes no row and adds at most one; a row that
    was there keeps its id, title, kind, catalog id, user and time, and its
    current episode changes only if it is a row of the sender. *)
Theorem rows_are_kept
    (env : Env) (chatID : Z) (text : string) (w : World) :
  let w' := dispatch env chatID text w in
  (length (watched w) <= length (watched w') <= S (length (watched w)))%nat
  /\ forall i m,
       watched w !! i = Some m ->
       exists m',
         watched w' !! i = Some m'
         /\ sameButEpisode m m'
         /\ (Movie.CurrentEpisode m' <> Movie.CurrentEpisode m ->
             Movie.UserID m = chatID).
Proof.
  intros w'. subst w'.
  destruct (dispatch_frame env chatID text w) as (_ & Hr & _).
  assert (Hsame : forall m, sameButEpisode m m) by (intros m; repeat split).
  destruct Hr as [->|[(row & Hu & ->)|(ep & tmdb & ->)]].
  - split; [lia|]. intros i m Hi. exists m. repeat split; auto; congruence.
  - split; [rewrite length_app; cbn; lia|]. intros i m Hi. exists m.
    split; [apply lookup_app_l_Some, Hi|]. split; [apply Hsame|congruence].
  - split; [rewrite length_map; lia|]. intros i m Hi.
    exists (setEpisodeOf ep chatID tmdb m). rewrite list_lookup_fmap, Hi.
    split; [reflexivity|]. apply setEpisodeOf_same.
Qed.

(** ** The conversation map over a run *)

Lemma dispatch_onlyShowsPend env chatID text w :
  onlyShowsPend w -> onlyShowsPend (dispatch env chatID text w).
Proof.
  intros Hinv c st.
  destruct (dispatch_frame env chatID text w) as (Hs & _ & _).
  destruct Hs as [->|[(st' & Ha & Hk & ->)| ->]].
  - apply Hinv.
  - destruct (decide (chatID = c)) as [->|Hne].
    + rewrite lookup_insert_eq. intros [= <-]. auto.
    + rewrite lookup_insert_ne by exact Hne. apply Hinv.
  - destruct (decide (chatID = c)) as [->|Hne].
    + rewrite lookup_delete_eq. discriminate.
    + rewrite lookup_delete_ne by exact Hne. apply Hinv.
Qed.

(** X5: if every stored conversation state awaits an episode and is of kind
    "tv", this stays so whatever updates are handled (it holds of the empty
    map [main] starts with); a user then has a state exactly when the
    dispatcher treats the next text as an episode answer. *)
Theorem only_shows_are_pending (updates : list (Env * Update)) (w : World) :
  onlyShowsPend w ->
  onlyShowsPend (run updates w)
  /\ forall c, awaiting c (run updates w) = conversationStates (run updates w) !! c.
Proof.
  intros Hinv.
  assert (Hrun : onlyShowsPend (run updates w)).
  { revert w Hinv. induction updates as [|[env u] updates IH]; intros w Hinv;
      [exact Hinv|].
    rewrite run_cons. apply IH. cbn [fst snd]. unfold handleUpdateEvent.
    destruct (Message u) as [[c text]|]; [|exact Hinv].
    apply dispatch_onlyShowsPend, Hinv. }
  split; [exact Hrun|]. intros c. unfold awaiting.
  destruct (conversationStates (run updates w) !! c) as [st|] eqn:E;
    [|reflexivity].
  destruct (Hrun c st E) as [-> _]. reflexivity.
Qed.

Lemma only_shows_are_pending_witness :
  onlyShowsPend
    (run [messageOf sampleEnv 7 "/add Breaking Bad";
          messageOf sampleEnv 8 "/add Inception";
          messageOf sampleEnv 7 "five"] emptyWorld).
Proof.
  apply (only_shows_are_pending _ emptyWorld).
  intros c st H. cbn in H. rewrite lookup_empty in H. discriminate.
Defined.

(** ** /search and /top *)

Lemma dispatch_search env chatID query w :
  awaiting chatID w = None ->
  dispatch env chatID ("/search " +:+ query) w
  = handleSearch env chatID query w.
Proof.
  intros H. unfold dispatch. rewrite H. unfold command.
  replace (String.eqb ("/search " +:+ query) "/start") with false
    by reflexivity.
  replace (HasPrefix ("/search " +:+ query) "/add") with false by reflexivity.
  replace (String.eqb ("/search " +:+ query) "/list") with false
    by reflexivity.
  replace (HasPrefix ("/search " +:+ query) "/search") with true
    by reflexivity.
  reflexivity.
Qed.

(** X6: /search with a non-empty argument leaves map and table alone and,
    after the catalog request, sends either the nothing-found reply (request
    failed or no results) or one numbered entry for each of the first
    min(5, n) results in the order of the response. *)
Theorem search_sends_at_most_five
    (env : Env) (chatID : Z) (query : string) (w : World) :
  awaiting chatID w = None ->
  query <> "" ->
  let w' := dispatch env chatID ("/search " +:+ query) w in
  conversationStates w' = conversationStates w
  /\ watched w' = watched w
  /\ match Results <$> searchResponse env query with
     | None | Some [] =>
       sentSince w w'
       = [SearchMulti query; SendMessage chatID (msgNothingFound query)]
     | Some results =>
       sentSince w w'
       = SearchMulti query :: imap (entryEvent chatID) (take 5 results)
       /\ length (imap (entryEvent chatID) (take 5 results))
          = Nat.min 5 (length results)
     end.
Proof.
  intros Hnorm Hq w'. subst w'. rewrite (dispatch_search _ _ _ _ Hnorm).
  unfold handleSearch, searchTMDB. rewrite (eqb_false_of_neq _ _ Hq).
  destruct (Results <$> searchResponse env query) as [[|r rest]|].
  - repeat split. apply sentSince_app. cbn. rewrite <- app_assoc. reflexivity.
  - set (results := r :: rest).
    destruct (sendEntries_world chatID
                (take (Nat.min 5 (length results)) results) 0%nat
                (emit (SearchMulti query) w)) as [-> ->].
    replace (take (Nat.min 5 (length results)) results)
      with (take 5 results)
      by (destruct (Nat.min_spec 5 (length results)) as [[_ ->]|[Hl ->]];
          [reflexivity|rewrite !take_ge by lia; reflexivity]).
    repeat split.
    + apply sentSince_app. rewrite sendEntries_trace. cbn [emit trace].
      rewrite <- app_assoc. reflexivity.
    + rewrite length_imap, length_take. reflexivity.
  - repeat split. apply sentSince_app. cbn. rewrite <- app_assoc. reflexivity.
Qed.

Lemma search_sends_at_most_five_witness :
  sentSince emptyWorld (dispatch sampleEnv 7 "/search Inception" emptyWorld)
  = SearchMulti "Inception" :: imap (entryEvent 7) (take 5 [inception]).
Proof.
  destruct (search_sends_at_most_five sampleEnv 7 "Inception" emptyWorld
              eq_refl ltac:(discriminate)) as (_ & _ & H & _).
  exact H.
Defined.

(** X7: [handleTop] never changes map or table.  When the film listing fails
    the show listing is not requested and the film error is sent and logged;
    when the show listing fails the show error is sent and logged; when both
    listings are empty the not-found reply is sent. *)
Theorem top_reports_failed_listings (env : Env) (chatID : Z) (w : World) :
  let w' := handleTop env chatID w in
  conversationStates w' = conversationStates w
  /\ watched w' = watched w
  /\ (popularMoviesResponse env = None ->
      sentSince w w'
      = [PopularMovies; SendMessage chatID "Ошибка получения топ-фильмов";
         LogPrintf "Ошибка получения топ-фильмов: %s"])
  /\ (forall movies,
        popularMoviesResponse env = Some movies ->
        popularTVResponse env = None ->
        sentSince w w'
        = [PopularMovies; PopularTV;
           SendMessage chatID "Ошибка получения топ-сериалов";
           LogPrintf "Ошибка получения топ-сериалов: %s"])
  /\ (forall movies shows,
        popularMoviesResponse env = Some movies ->
        popularTVResponse env = Some shows ->
        Results movies = [] -> Results shows = [] ->
        sentSince w w'
        = [PopularMovies; PopularTV;
           SendMessage chatID "Топ-фильмы и сериалы не найдены"]).
Proof.
  intros w'. subst w'. unfold handleTop, getTopMovies, getTopTVShows.
  split; [|split; [|split; [|split]]].
  - repeat branch; try reflexivity.
    rewrite (proj1 (sendEntries_world _ _ _ _)). reflexivity.
  - repeat branch; try reflexivity.
    rewrite (proj2 (sendEntries_world _ _ _ _)). reflexivity.
  - intros ->. apply sentSince_app. cbn. rewrite <- !app_assoc. reflexivity.
  - intros movies -> ->. apply sentSince_app. cbn. rewrite <- !app_assoc.
    reflexivity.
  - intros movies shows -> -> Hm Hs. apply sentSince_app.
    cbn [fmap option_fmap option_map stamp Results]. rewrite Hm, Hs. cbn.
    rewrite <- !app_assoc. reflexivity.
Qed.

(** ** /list *)

Lemma insertByTime_perm (m : Movie.t) (l : list Movie.t) :
  insertByTime m l ≡ₚ m :: l.
Proof.
  induction l as [|x l IH]; [reflexivity|]. cbn [insertByTime].
  destruct (Movie.WatchedAt x <? Movie.WatchedAt m); [reflexivity|].
  rewrite IH. apply perm_swap.
Qed.

Lemma insertByTime_sorted (m : Movie.t) (l : list Movie.t) :
  StronglySorted newerFirst l -> StronglySorted newerFirst (insertByTime m l).
Proof.
  intros Hs. induction Hs as [|x l Hs IH Hx]; cbn [insertByTime].
  - repeat constructor.
  - destruct (Z.ltb_spec (Movie.WatchedAt x) (Movie.WatchedAt m)) as [Hlt|Hge].
    + constructor; [constructor; assumption|].
      constructor; [unfold newerFirst; lia|].
      eapply Forall_impl; [exact Hx|]. unfold newerFirst. intros y Hy. lia.
    + constructor; [exact IH|].
      rewrite insertByTime_perm. constructor; [exact Hge|exact Hx].
Qed.

Lemma selectByUser_sorted (rows : list Movie.t) :
  foldr insertByTime [] rows ≡ₚ rows
  /\ StronglySorted newerFirst (foldr insertByTime [] rows).
Proof.
  induction rows as [|m rows [IHp IHs]]; [split; [reflexivity|constructor]|].
  cbn [foldr]. split.
  - rewrite insertByTime_perm, IHp. reflexivity.
  - apply insertByTime_sorted, IHs.
Qed.

Lemma sentSince_sendMessage chatID text w :
  sentSince w (sendMessage chatID text w) = [SendMessage chatID text].
Proof. apply sentSince_app. reflexivity. Qed.

(** X8: when the query succeeds, /list reads exactly the rows of the sender,
    most recent first, changes nothing, and sends one message: the
    empty-list reply exactly when the sender has no row, otherwise the
    header followed by a line per row. *)
Theorem list_shows_own_rows_newest_first
    (env : Env) (chatID : Z) (w : World) :
  queryFails env = false ->
  let w' := handleList env chatID w in
  exists listed,
    selectByUser env chatID w = Some listed
    /\ listed ≡ₚ rowsOf chatID (watched w)
    /\ StronglySorted newerFirst listed
    /\ conversationStates w' = conversationStates w
    /\ watched w' = watched w
    /\ sentSince w w'
       = [SendMessage chatID
            (match listed with
             | [] => msgListEmpty
             | _ => listHeader +:+ listLines env 0 listed
             end)]
    /\ (sentSince w w' = [SendMessage chatID msgListEmpty]
        <-> rowsOf chatID (watched w) = []).
Proof.
  intros Hq w'. subst w'. unfold handleList, selectByUser. rewrite Hq.
  fold (rowsOf chatID (watched w)).
  destruct (selectByUser_sorted (rowsOf chatID (watched w))) as [Hp Hs].
  exists (foldr insertByTime [] (rowsOf chatID (watched w))).
  split; [reflexivity|]. split; [exact Hp|]. split; [exact Hs|].
  destruct (foldr insertByTime [] (rowsOf chatID (watched w)))
    as [|m listed] eqn:E.
  - rewrite sentSince_sendMessage. do 3 (split; [reflexivity|]).
    split; [|reflexivity].
    intros _. apply Permutation_nil in Hp. exact Hp.
  - rewrite sentSince_sendMessage. do 3 (split; [reflexivity|]). split.
    + intros H. discriminate H.
    + intros H. rewrite H in Hp. symmetry in Hp.
      apply Permutation_nil in Hp. discriminate.
Qed.

Lemma list_shows_own_rows_newest_first_witness :
  exists listed,
    selectByUser sampleEnv 7 watchingWorld = Some listed
    /\ listed ≡ₚ rowsOf 7 (watched watchingWorld)
    /\ StronglySorted newerFirst listed.
Proof.
  destruct (list_shows_own_rows_newest_first sampleEnv 7 watchingWorld
              eq_refl) as (listed & H1 & H2 & H3 & _).
  exists listed. auto.
Defined.

(** ** The add flow, end to end *)

(** X9: only the kind "tv" is singled out by [handleAdd]: a first match of
    any other kind (a film, but also a person of the multi-search) is
    inserted at once under its [title] field with its own kind, and
    confirmed as a film, as a photo when it has a poster. *)
Theorem add_stores_any_other_kind_as_film
    (env : Env) (chatID : Z) (query : string) (w : World)
    (result : Result.t) (rest : list Result.t) :
  query <> "" ->
  searchResponse env query = Some {| Results := result :: rest |} ->
  Result.MediaType result <> "tv" ->
  execFails env = false ->
  let w' := handleAdd env chatID query w in
  let caption := msgAdded (Result.Title result) "фильм" in
  conversationStates w' = conversationStates w
  /\ watched w' = watched w ++ [movieRow env chatID result w]
  /\ Movie.Title (movieRow env chatID result w) = Result.Title result
  /\ Movie.MediaType (movieRow env chatID result w) = Result.MediaType result
  /\ sentSince w w'
     = [SearchMulti query;
        if String.eqb (Result.PosterPath result) ""
        then SendMessage chatID caption
        else SendPhoto chatID (posterURL (Result.PosterPath result)) caption].
Proof.
  intros Hq Hs Hk He w' caption. subst w' caption.
  unfold handleAdd, searchTMDB, insertWatched.
  rewrite (eqb_false_of_neq _ _ Hq), Hs.
  cbn [fmap option_fmap option_map Results].
  rewrite (eqb_false_of_neq _ _ Hk), He.
  destruct (String.eqb (Result.PosterPath result) ""); cbn [negb];
    repeat split; apply sentSince_app; cbn; rewrite <- app_assoc; reflexivity.
Qed.

Lemma add_stores_any_other_kind_as_film_witness :
  watched (handleAdd personEnv 7 "Keanu" emptyWorld)
  = watched emptyWorld ++ [movieRow personEnv 7 keanu emptyWorld]
  /\ Movie.Title (movieRow personEnv 7 keanu emptyWorld) = ""
  /\ Movie.MediaType (movieRow personEnv 7 keanu emptyWorld) = "person".
Proof.
  destruct (add_stores_any_other_kind_as_film personEnv 7 "Keanu" emptyWorld
              keanu [] ltac:(discriminate) eq_refl ltac:(discriminate)
              eq_refl) as (_ & H1 & H2 & H3 & _).
  repeat split; assumption.
Defined.

(** X10: once the row of a valid episode answer is inserted, exactly one
    confirmation follows the catalog request: a photo only when the request
    returns a first result with the pending catalog id and a poster, and a
    plain message in every other case, also when the request fails. *)
Theorem episode_answer_is_confirmed
    (env : Env) (chatID : Z) (text : string) (state : ConversationState.t)
    (w : World) (episode : Z) :
  Atoi text = Some episode ->
  0 <= episode ->
  execFails env = false ->
  let w' := handleEpisodeInput env chatID text state w in
  let title := ConversationState.Title state in
  let caption := msgAddedShow title episode in
  exists reply,
    sentSince w w' = [SearchMulti title; reply]
    /\ (reply = SendMessage chatID caption
        \/ exists first rest,
             searchResponse env title = Some {| Results := first :: rest |}
             /\ Result.ID first = ConversationState.TMDBID state
             /\ Result.PosterPath first <> ""
             /\ reply = SendPhoto chatID (posterURL (Result.PosterPath first))
                                  caption)
    /\ (searchResponse env title = None -> reply = SendMessage chatID caption).
Proof.
  intros HA Hge He w' title caption. subst w' title caption.
  unfold handleEpisodeInput, insertWatched, searchTMDB. rewrite HA, He.
  replace (episode <? 0) with false by lia.
  destruct (searchResponse env (ConversationState.Title state))
    as [[[|first rest]]|] eqn:Hs; cbn [fmap option_fmap option_map Results].
  - eexists. split; [apply sentSince_app; cbn; rewrite <- app_assoc;
                     reflexivity|]. split; [left; reflexivity|discriminate].
  - destruct (Z.eqb_spec (Result.ID first) (ConversationState.TMDBID state))
      as [Hid|Hid]; cbn [andb].
    + destruct (String.eqb_spec (Result.PosterPath first) "") as [Hp|Hp];
        cbn [negb]; eexists;
        (split; [apply sentSince_app; cbn; rewrite <- app_assoc; reflexivity|]);
        (split; [|discriminate]).
      * left. reflexivity.
      * right. exists first, rest. repeat split; assumption.
    + eexists. split; [apply sentSince_app; cbn; rewrite <- app_assoc;
                       reflexivity|]. split; [left; reflexivity|discriminate].
  - eexists. split; [apply sentSince_app; cbn; rewrite <- app_assoc;
                     reflexivity|]. split; [left; reflexivity|reflexivity].
Qed.

Lemma episode_answer_is_confirmed_witness :
  exists reply,
    sentSince awaitingWorld
      (handleEpisodeInput sampleEnv 7 "5" pendingBreakingBad awaitingWorld)
    = [SearchMulti "Breaking Bad"; reply].
Proof.
  destruct (episode_answer_is_confirmed sampleEnv 7 "5" pendingBreakingBad
              awaitingWorld 5 eq_refl ltac:(discriminate) eq_refl)
    as (reply & H & _).
  exists reply. exact H.
Defined.

Lemma find_app_None {A} (P : A -> bool) (l1 l2 : list A) :
  find P l1 = None -> find P (l1 ++ l2) = find P l2.
Proof.
  induction l1 as [|x l1 IH]; [reflexivity|]. cbn [find app].
  destruct (P x); [discriminate|exact IH].
Qed.

Lemma dispatch_update env chatID title token w :
  awaiting chatID w = None ->
  dispatch env chatID (updateText title token) w
  = handleUpdate env chatID (title +:+ " " +:+ token) w.
Proof.
  intros H. unfold dispatch. rewrite H. unfold command, updateText.
  set (q := title +:+ " " +:+ token).
  replace (String.eqb ("/update " +:+ q) "/start") with false by reflexivity.
  replace (HasPrefix ("/update " +:+ q) "/add") with false by reflexivity.
  replace (String.eqb ("/update " +:+ q) "/list") with false by reflexivity.
  replace (HasPrefix ("/update " +:+ q) "/search") with false by reflexivity.
  replace (String.eqb ("/update " +:+ q) "/top") with false by reflexivity.
  replace (HasPrefix ("/update " +:+ q) "/update") with true by reflexivity.
  reflexivity.
Qed.

(** X11: /add of a show followed by a valid episode answer appends one row
    with the show's name, kind, catalog id, the sender and that episode, and
    removes the pending state.  If the name is normalized and the sender had
    no row of that title, an /update of that name then sets the episode of
    the new row (and of the sender's older rows with that catalog id). *)
Theorem add_answer_update_round_trip
    (env1 env2 env3 : Env) (chatID : Z) (query answer token : string)
    (w : World) (result : Result.t) (rest : list Result.t)
    (episode episode' : Z) :
  awaiting chatID w = None ->
  query <> "" ->
  searchResponse env1 query = Some {| Results := result :: rest |} ->
  Result.MediaType result = "tv" ->
  Atoi answer = Some episode -> 0 <= episode ->
  execFails env2 = false ->
  let w2 :=
    dispatch env2 chatID answer
             (dispatch env1 chatID ("/add " +:+ query) w) in
  let row e :=
    Movie.mk (Z.of_nat (length (watched w)) + 1) (Result.Name result) "tv"
             (Result.ID result) chatID (now env2) e in
  watched w2 = watched w ++ [row episode]
  /\ conversationStates w2 = delete chatID (conversationStates w)
  /\ awaiting chatID w2 = None
  /\ (normalized (Result.Name result) ->
      find (matchesTitle chatID (Result.Name result)) (watched w) = None ->
      Atoi token = Some episode' -> 0 <= episode' ->
      queryFails env3 = false -> execFails env3 = false ->
      let w3 :=
        dispatch env3 chatID (updateText (Result.Name result) token) w2 in
      watched w3
      = map (setEpisodeOf episode' chatID (Result.ID result)) (watched w)
        ++ [row episode']
      /\ conversationStates w3 = conversationStates w2).
Proof.
  intros Hnorm Hq Hs Hk HA Hge He w2 row.
  set (w1 := dispatch env1 chatID ("/add " +:+ query) w) in *.
  assert (Hw1 : conversationStates w1
                = <[chatID := pendingFor result]> (conversationStates w)
                /\ watched w1 = watched w).
  { unfold w1. rewrite (dispatch_add _ _ _ _ Hnorm).
    unfold handleAdd, searchTMDB. rewrite (eqb_false_of_neq _ _ Hq), Hs.
    cbn [fmap option_fmap option_map Results]. rewrite Hk.
    unfold pendingFor. rewrite Hk. split; reflexivity. }
  destruct Hw1 as [Hs1 Hr1].
  assert (Hl1 : conversationStates w1 !! chatID = Some (pendingFor result))
    by (rewrite Hs1; apply lookup_insert_eq).
  assert (Hw2 : conversationStates w2 = delete chatID (conversationStates w)
                /\ watched w2 = watched w ++ [row episode]).
  { unfold w2. rewrite (dispatch_awaiting _ _ _ _ _ Hl1 eq_refl).
    pose proof (handleEpisodeInput_valid env2 chatID answer
                  (pendingFor result) w1 episode HA Hge) as Hv.
    cbv zeta in Hv. rewrite He in Hv. destruct Hv as [-> ->].
    rewrite Hs1, Hr1, delete_insert_eq. unfold episodeRow, pendingFor, row.
    cbn [ConversationState.Title ConversationState.MediaType
         ConversationState.TMDBID].
    rewrite Hr1, Hk. split; reflexivity. }
  destruct Hw2 as [Hs2 Hr2].
  assert (Hn2 : awaiting chatID w2 = None)
    by (unfold awaiting; rewrite Hs2, lookup_delete_eq; reflexivity).
  split; [exact Hr2|]. split; [exact Hs2|]. split; [exact Hn2|].
  intros Hname Hfresh HA' Hge' Hq3 He3 w3. subst w3.
  rewrite (dispatch_update _ _ _ _ _ Hn2).
  destruct (parseUpdate_title_token (Result.Name result) token episode'
              HA' Hge') as [_ Hparse].
  destruct Hname as [Hne HJ].
  assert (Hargs : parseUpdate (Result.Name result +:+ " " +:+ token)
                  = Args (Result.Name result) episode').
  { rewrite Hparse.
    destruct (Fields (Result.Name result)) as [|x xs] eqn:E;
      [cbn in HJ; congruence|]. rewrite HJ. reflexivity. }
  unfold handleUpdate, selectByTitle, updateEpisode.
  rewrite Hargs, Hq3, Hr2, (find_app_None _ _ _ Hfresh).
  assert (Hm : matchesTitle chatID (Result.Name result) (row episode) = true).
  { unfold matchesTitle, row. cbn [Movie.UserID Movie.Title].
    rewrite Z.eqb_refl, String.eqb_refl. reflexivity. }
  cbn [find]. rewrite Hm. cbn [row Movie.TMDBID Movie.MediaType].
  cbn [String.eqb Ascii.eqb Bool.eqb negb]. rewrite He3.
  cbn [sendMessage emit watched conversationStates].
  split; [|reflexivity].
  rewrite map_app. f_equal. cbn [map Movie.UserID Movie.TMDBID].
  rewrite !Z.eqb_refl. reflexivity.
Qed.

Lemma add_answer_update_round_trip_witness :
  let w2 :=
    dispatch sampleEnv 7 "5"
             (dispatch sampleEnv 7 "/add Breaking Bad" emptyWorld) in
  let w3 := dispatch sampleEnv 7 (updateText "Breaking Bad" "9") w2 in
  watched w2 = [Movie.mk 1 "Breaking Bad" "tv" 1396 7 1700000000 5]
  /\ watched w3 = [Movie.mk 1 "Breaking Bad" "tv" 1396 7 1700000000 9].
Proof.
  destruct (add_answer_update_round_trip sampleEnv sampleEnv sampleEnv 7
              "Breaking Bad" "5" "9" emptyWorld breakingBad [] 5 9
              eq_refl ltac:(discriminate) eq_refl eq_refl eq_refl
              ltac:(discriminate) eq_refl) as (H2 & _ & _ & H3).
  split; [exact H2|].
  destruct (H3 ltac:(split; [discriminate|reflexivity]) eq_refl eq_refl
               ltac:(discriminate) eq_refl eq_refl) as [H _].
  exact H.
Defined.

(** ** More on /update and on what commands touch *)

(** When the parse of an /update argument ends in the usage case and when
    in the bad-episode case. *)
Lemma parseUpdate_usage_and_bad_episode (query : string) :
  (parseUpdate query = Usage <-> (length (Fields query) < 2)%nat)
  /\ (parseUpdate query = BadEpisode
      <-> exists words token,
            Fields query = words ++ [token]
            /\ words <> []
            /\ invalidEpisode token = true)
  /\ forall env chatID w,
       (length (Fields query) < 2)%nat ->
       handleUpdate env chatID query w = sendMessage chatID msgUpdateUsage w.
Proof.
  assert (Husage : parseUpdate query = Usage
                   <-> (length (Fields query) < 2)%nat).
  { unfold parseUpdate.
    destruct (String.eqb_spec query "") as [->|Hq].
    - split; [intros _; cbn; lia|reflexivity].
    - destruct (Nat.ltb_spec (length (Fields query)) 2) as [Hlt|Hge].
      + split; auto.
      + split; [|lia]. repeat branch; discriminate. }
  split; [exact Husage|]. split.
  - unfold parseUpdate.
    destruct (String.eqb_spec query "") as [->|Hq].
    { split; [discriminate|]. intros (words & token & HF & _).
      rewrite Fields_empty in HF. destruct words; discriminate. }
    destruct (Nat.ltb_spec (length (Fields query)) 2) as [Hlt|Hge].
    { split; [discriminate|]. intros (words & token & HF & Hw & _).
      rewrite HF, length_app in Hlt.
      destruct words; [congruence|cbn in Hlt; lia]. }
    destruct (last (Fields query)) as [token|] eqn:Hlast.
    + apply last_Some in Hlast as [words HF]. cbn [mbind option_bind]. split.
      * intros H. exists words, token. split; [exact HF|]. split.
        -- intros ->. rewrite HF in Hge. cbn in Hge. lia.
        -- unfold invalidEpisode. destruct (Atoi token) as [n|]; [|reflexivity].
           destruct (n <? 0); [reflexivity|discriminate].
      * intros (words' & token' & HF' & _ & Hinv). rewrite HF in HF'.
        apply app_inj_tail in HF' as [_ <-]. unfold invalidEpisode in Hinv.
        destruct (Atoi token) as [n|]; [|reflexivity]. rewrite Hinv.
        reflexivity.
    + apply last_None in Hlast. rewrite Hlast in Hge. cbn in Hge. lia.
  - intros env chatID w Hlt. unfold handleUpdate.
    rewrite (proj2 Husage Hlt). reflexivity.
Qed.

(** What [handleUpdate] sends, by the outcome of the parse and of the
    lookup. *)
Lemma handleUpdate_sent env chatID query w :
  sentSince w (handleUpdate env chatID query w)
  = match parseUpdate query with
    | Usage => [SendMessage chatID msgUpdateUsage]
    | BadEpisode => [SendMessage chatID msgUpdateBadEpisode]
    | Args title episode =>
      match selectByTitle env chatID title w with
      | None => [SendMessage chatID msgNotInList]
      | Some (tmdbID, mediaType) =>
        if negb (String.eqb mediaType "tv")
        then [SendMessage chatID msgNotAShow]
        else if execFails env
             then [SendMessage chatID msgUpdateError;
                   LogPrintf logDatabaseError]
             else [SendMessage chatID (msgUpdated title episode)]
      end
    end.
Proof.
  unfold handleUpdate, updateEpisode.
  destruct (parseUpdate query) as [| |title episode];
    try (apply sentSince_app; reflexivity).
  destruct (selectByTitle env chatID title w) as [[tmdbID mediaType]|];
    [|apply sentSince_app; reflexivity].
  destruct (negb (String.eqb mediaType "tv"));
    [apply sentSince_app; reflexivity|].
  destruct (execFails env); apply sentSince_app; [|reflexivity].
  cbn. rewrite <- app_assoc. reflexivity.
Qed.

(** X12: what [handleUpdate] sends is the usage reply alone exactly when its
    argument has fewer than two fields (so also when it is empty or a single
    word or number), and the bad-episode reply alone exactly when the
    argument has at least two fields and the last is not a non-negative
    number [Atoi] accepts; in both cases nothing but the trace changes. *)
Theorem update_usage_and_bad_episode
    (env : Env) (chatID : Z) (query : string) (w : World) :
  let w' := handleUpdate env chatID query w in
  let fewFields := (length (Fields query) < 2)%nat in
  let badLast :=
    exists words token,
      Fields query = words ++ [token]
      /\ words <> []
      /\ invalidEpisode token = true in
  (sentSince w w' = [SendMessage chatID msgUpdateUsage] <-> fewFields)
  /\ (sentSince w w' = [SendMessage chatID msgUpdateBadEpisode] <-> badLast)
  /\ (fewFields -> w' = sendMessage chatID msgUpdateUsage w)
  /\ (badLast -> w' = sendMessage chatID msgUpdateBadEpisode w)
  /\ (parseUpdate query = Usage <-> fewFields)
  /\ (parseUpdate query = BadEpisode <-> badLast).
Proof.
  intros w' fewFields badLast. subst w' fewFields badLast.
  destruct (parseUpdate_usage_and_bad_episode query) as (Husage & Hbad & _).
  rewrite handleUpdate_sent. unfold handleUpdate.
  split; [|split; [|split; [|split; [|split; [exact Husage|exact Hbad]]]]].
  - rewrite <- Husage.
    destruct (parseUpdate query) as [| |title episode]; [tauto| |].
    + split; discriminate.
    + split; [|discriminate].
      destruct (selectByTitle env chatID title w) as [[tmdbID mediaType]|];
        [|discriminate].
      destruct (negb (String.eqb mediaType "tv")); [discriminate|].
      destruct (execFails env); discriminate.
  - rewrite <- Hbad.
    destruct (parseUpdate query) as [| |title episode]; [|tauto|].
    + split; discriminate.
    + split; [|discriminate].
      destruct (selectByTitle env chatID title w) as [[tmdbID mediaType]|];
        [|discriminate].
      destruct (negb (String.eqb mediaType "tv")); [discriminate|].
      destruct (execFails env); discriminate.
  - intros Hfew. rewrite (proj2 Husage Hfew). reflexivity.
  - intros Hlast. rewrite (proj2 Hbad Hlast). reflexivity.
Qed.

Lemma handleList_world env chatID w :
  conversationStates (handleList env chatID w) = conversationStates w
  /\ watched (handleList env chatID w) = watched w.
Proof. unfold handleList. repeat branch; split; reflexivity. Qed.

Lemma handleSearch_world env chatID query w :
  conversationStates (handleSearch env chatID query w) = conversationStates w
  /\ watched (handleSearch env chatID query w) = watched w.
Proof.
  unfold handleSearch, searchTMDB. repeat branch; try (split; reflexivity).
  destruct (sendEntries_world chatID
              (take (Nat.min 5 (length (t :: l0))) (t :: l0)) 0%nat
              (emit (SearchMulti query) w)) as [-> ->].
  split; reflexivity.
Qed.

Lemma handleTop_world env chatID w :
  conversationStates (handleTop env chatID w) = conversationStates w
  /\ watched (handleTop env chatID w) = watched w.
Proof.
  unfold handleTop, getTopMovies, getTopTVShows.
  repeat branch; try (split; reflexivity).
  rewrite (proj1 (sendEntries_world _ _ _ _)),
          (proj2 (sendEntries_world _ _ _ _)).
  split; reflexivity.
Qed.

Lemma handleUpdate_world env chatID query w :
  conversationStates (handleUpdate env chatID query w) = conversationStates w
  /\ length (watched (handleUpdate env chatID query w)) = length (watched w).
Proof.
  unfold handleUpdate, selectByTitle, updateEpisode.
  destruct (parseUpdate query) as [| |title episode];
    try (split; reflexivity).
  destruct (queryFails env); [split; reflexivity|].
  destruct (find (matchesTitle chatID title) (watched w)) as [m|];
    [|split; reflexivity].
  destruct (negb (String.eqb (Movie.MediaType m) "tv"));
    [split; reflexivity|].
  destruct (execFails env); [split; reflexivity|].
  split; [reflexivity|apply length_map].
Qed.

Lemma handleAdd_rows env chatID query w :
  watched (handleAdd env chatID query w) = watched w
  \/ exists row,
       watched (handleAdd env chatID query w) = watched w ++ [row]
       /\ Movie.UserID row = chatID
       /\ Movie.CurrentEpisode row = 0
       /\ Movie.MediaType row <> "tv".
Proof.
  unfold handleAdd, searchTMDB, insertWatched.
  destruct (String.eqb query ""); [left; reflexivity|].
  destruct (Results <$> searchResponse env query) as [[|result rest]|];
    [left; reflexivity| |left; reflexivity].
  destruct (String.eqb_spec (Result.MediaType result) "tv") as [Hk|Hk];
    [left; reflexivity|].
  destruct (execFails env); [left; reflexivity|].
  right. eexists.
  split; [destruct (negb (String.eqb (Result.PosterPath result) ""));
          reflexivity|].
  repeat split. exact Hk.
Qed.

(** X13: in the normal state, a text that does not start with /add leaves
    the conversation map alone; one that starts with neither /add nor
    /update leaves the table alone; /update keeps the number of rows; and
    /add appends at most one row, of the sender, with episode 0 and a kind
    other than "tv" (rows of shows come from episode answers only). *)
Theorem commands_change_only_what_they_name
    (env : Env) (chatID : Z) (text : string) (w : World) :
  awaiting chatID w = None ->
  let w' := dispatch env chatID text w in
  (HasPrefix text "/add" = false ->
     conversationStates w' = conversationStates w)
  /\ (HasPrefix text "/add" = false -> HasPrefix text "/update" = false ->
        watched w' = watched w)
  /\ (HasPrefix text "/update" = true ->
        length (watched w') = length (watched w))
  /\ (HasPrefix text "/add" = true ->
        watched w' = watched w
        \/ exists row,
             watched w' = watched w ++ [row]
             /\ Movie.UserID row = chatID
             /\ Movie.CurrentEpisode row = 0
             /\ Movie.MediaType row <> "tv").
Proof.
  intros Hnorm w'. subst w'. unfold dispatch. rewrite Hnorm. unfold command.
  split; [|split; [|split]].
  - intros ->.
    repeat match goal with
    | |- context [if ?b then _ else _] => destruct b
    end; try reflexivity;
    first [ apply handleList_world | apply handleSearch_world
          | apply handleTop_world | apply handleUpdate_world ].
  - intros -> ->.
    repeat match goal with
    | |- context [if ?b then _ else _] => destruct b
    end; try reflexivity;
    first [ apply handleList_world | apply handleSearch_world
          | apply handleTop_world ].
  - intros Hu. apply prefix_inv in Hu as [rest ->].
    replace (String.eqb ("/update" +:+ rest) "/start") with false
      by reflexivity.
    replace (HasPrefix ("/update" +:+ rest) "/add") with false by reflexivity.
    replace (String.eqb ("/update" +:+ rest) "/list") with false
      by reflexivity.
    replace (HasPrefix ("/update" +:+ rest) "/search") with false
      by reflexivity.
    replace (String.eqb ("/update" +:+ rest) "/top") with false
      by reflexivity.
    replace (HasPrefix ("/update" +:+ rest) "/update") with true
      by reflexivity.
    apply handleUpdate_world.
  - intros Ha. rewrite Ha. apply prefix_inv in Ha as [rest ->].
    replace (String.eqb ("/add" +:+ rest) "/start") with false by reflexivity.
    apply handleAdd_rows.
Qed.

Lemma commands_change_only_what_they_name_witness :
  watched (dispatch sampleEnv 7 "/list" watchingWorld)
  = watched watchingWorld.
Proof.
  destruct (commands_change_only_what_they_name sampleEnv 7 "/list"
              watchingWorld eq_refl) as (_ & H & _).
  exact (H eq_refl eq_refl).
Defined.

(** X14: the row /update finds is looked up by title, but the rows it
    changes are chosen by catalog id: every row of the sender with the
    catalog id of the row found gets the episode, whatever its title and
    kind, and rows with another catalog id or of another user are left as
    they are, the sender's other rows of the same title included. *)
Theorem update_goes_by_catalog_id
    (env : Env) (chatID : Z) (query title : string) (episode : Z)
    (w : World) (m : Movie.t) :
  parseUpdate query = Args title episode ->
  find (matchesTitle chatID title) (watched w) = Some m ->
  Movie.MediaType m = "tv" ->
  queryFails env = false ->
  execFails env = false ->
  let w' := handleUpdate env chatID query w in
  forall i r,
    watched w !! i = Some r ->
    (Movie.UserID r = chatID -> Movie.TMDBID r = Movie.TMDBID m ->
     watched w' !! i = Some (setEpisode episode r))
    /\ (Movie.TMDBID r <> Movie.TMDBID m -> watched w' !! i = Some r)
    /\ (Movie.UserID r <> chatID -> watched w' !! i = Some r).
Proof.
  intros Hparse Hfind Hkind Hq He w' i r Hi. subst w'.
  unfold handleUpdate, selectByTitle, updateEpisode.
  rewrite Hparse, Hq, Hfind, Hkind, He.
  cbn [String.eqb Ascii.eqb Bool.eqb negb sendMessage emit watched].
  rewrite list_lookup_fmap, Hi. cbn [fmap option_fmap option_map].
  split; [|split].
  - intros Hu Ht. rewrite Hu, Ht, !Z.eqb_refl. reflexivity.
  - intros Ht. apply Z.eqb_neq in Ht. rewrite Ht, andb_false_r. reflexivity.
  - intros Hu. apply Z.eqb_neq in Hu. rewrite Hu. reflexivity.
Qed.

Lemma update_goes_by_catalog_id_witness :
  let w' := handleUpdate sampleEnv 7 "Breaking Bad 9" clashWorld in
  watched w' !! 1%nat
  = Some (setEpisode 9 (Movie.mk 2 "Judgment Night" "movie" 1396 7
                                 1700000200 0))
  /\ watched w' !! 2%nat
     = Some (Movie.mk 3 "Breaking Bad" "tv" 1396 8 1700000300 2).
Proof.
  pose proof (update_goes_by_catalog_id sampleEnv 7 "Breaking Bad 9"
                "Breaking Bad" 9 clashWorld
                (Movie.mk 1 "Breaking Bad" "tv" 1396 7 1700000100 5)
                eq_refl eq_refl eq_refl eq_refl eq_refl) as H.
  split.
  - exact (proj1 (H 1%nat _ eq_refl) eq_refl eq_refl).
  - exact (proj2 (proj2 (H 2%nat _ eq_refl)) ltac:(discriminate)).
Defined.

(** X15: while a user is awaiting an episode, whatever they send, either the
    pending state and the table stay as they are, or the text was a valid
    episode number whose row has been inserted and the state is gone.  No
    text cancels or replaces a pending add. *)
Theorem awaiting_ends_only_by_a_stored_answer
    (env : Env) (chatID : Z) (text : string) (state : ConversationState.t)
    (w : World) :
  awaiting chatID w = Some state ->
  let w' := dispatch env chatID text w in
  (awaiting chatID w' = Some state /\ watched w' = watched w)
  \/ (exists episode,
        Atoi text = Some episode /\ 0 <= episode /\ execFails env = false
        /\ awaiting chatID w' = None
        /\ watched w'
           = watched w ++ [episodeRow env chatID state episode w]).
Proof.
  intros Haw w'. subst w'. unfold dispatch. rewrite Haw.
  assert (Hst : conversationStates w !! chatID = Some state
                /\ ConversationState.AwaitingEpisode state = true).
  { unfold awaiting in Haw.
    destruct (conversationStates w !! chatID) as [st|]; [|discriminate].
    destruct (ConversationState.AwaitingEpisode st) eqn:E; [|discriminate].
    injection Haw as ->. auto. }
  destruct Hst as [Hst Hflag].
  destruct (Atoi text) as [episode|] eqn:HA.
  - destruct (Z.ltb_spec episode 0) as [Hneg|Hge].
    + left. rewrite handleEpisodeInput_invalid
        by (unfold invalidEpisode; rewrite HA; lia).
      split; [exact Haw|reflexivity].
    + pose proof (handleEpisodeInput_valid env chatID text state w episode
                    HA Hge) as Hv. cbv zeta in Hv.
      destruct (execFails env) eqn:He.
      * left. rewrite Hv. split; [exact Haw|reflexivity].
      * right. exists episode. destruct Hv as [Hs Hr].
        repeat split; try assumption.
        unfold awaiting. rewrite Hs, lookup_delete_eq. reflexivity.
  - left. rewrite handleEpisodeInput_invalid
      by (unfold invalidEpisode; rewrite HA; reflexivity).
    split; [exact Haw|reflexivity].
Qed.

Lemma awaiting_ends_only_by_a_stored_answer_witness :
  (awaiting 7 (dispatch sampleEnv 7 "/start" awaitingWorld)
   = Some pendingBreakingBad
   /\ watched (dispatch sampleEnv 7 "/start" awaitingWorld)
      = watched awaitingWorld)
  \/ (exists episode,
        Atoi "/start" = Some episode /\ 0 <= episode
        /\ execFails sampleEnv = false
        /\ awaiting 7 (dispatch sampleEnv 7 "/start" awaitingWorld) = None
        /\ watched (dispatch sampleEnv 7 "/start" awaitingWorld)
           = watched awaitingWorld
             ++ [episodeRow sampleEnv 7 pendingBreakingBad episode
                            awaitingWorld]).
Proof.
  exact (awaiting_ends_only_by_a_stored_answer sampleEnv 7 "/start"
           pendingBreakingBad awaitingWorld eq_refl).
Defined.

Lemma TrimPrefix_no_prefix (s pre : string) :
  HasPrefix s pre = false -> TrimPrefix s pre = s.
Proof. intros H. unfold TrimPrefix. rewrite H. reflexivity. Qed.

(** X16: in the normal state every text that starts with /search goes to the
    search handler.  Its argument is the text itself, command word
    included, unless the text starts with /search and a space; so /search
    alone is searched for literally, and the usage reply is sent only for
    /search followed by exactly one space. *)
Theorem search_argument_is_trimmed_only_after_a_space
    (env : Env) (chatID : Z) (text : string) (w : World) :
  awaiting chatID w = None ->
  HasPrefix text "/search" = true ->
  dispatch env chatID text w
  = handleSearch env chatID (TrimPrefix text "/search ") w
  /\ (HasPrefix text "/search " = false -> TrimPrefix text "/search " = text)
  /\ (TrimPrefix text "/search " = "" <-> text = "/search ")
  /\ (text <> "/search " ->
      exists evs,
        sentSince w (dispatch env chatID text w)
        = SearchMulti (TrimPrefix text "/search ") :: evs).
Proof.
  intros Hnorm Hp.
  assert (Hd : dispatch env chatID text w
               = handleSearch env chatID (TrimPrefix text "/search ") w).
  { unfold dispatch. rewrite Hnorm. unfold command. rewrite Hp.
    apply prefix_inv in Hp as [rest ->]. reflexivity. }
  assert (Hempty : TrimPrefix text "/search " = "" <-> text = "/search ").
  { apply prefix_inv in Hp as [rest ->]. destruct rest as [|c rest].
    - split; discriminate.
    - unfold TrimPrefix.
      change (HasPrefix ("/search" +:+ String c rest) "/search ")
        with (Ascii.eqb " " c && true).
      destruct (Ascii.eqb_spec " " c) as [<-|Hc].
      + change (rest = "" <-> "/search" +:+ String " " rest = "/search ").
        split; [intros ->; reflexivity|]. intros H. injection H. auto.
      + change ("/search" +:+ String c rest = ""
                <-> "/search" +:+ String c rest = "/search ").
        split; [discriminate|]. intros H. injection H. congruence. }
  split; [exact Hd|]. split; [apply TrimPrefix_no_prefix|].
  split; [exact Hempty|].
  intros Hne. rewrite Hd. unfold handleSearch, searchTMDB.
  assert (Hq : TrimPrefix text "/search " <> "") by (rewrite Hempty; exact Hne).
  rewrite (eqb_false_of_neq _ _ Hq).
  destruct (Results <$> searchResponse env (TrimPrefix text "/search "))
    as [[|r rest]|].
  - eexists. apply sentSince_app. cbn. rewrite <- app_assoc. reflexivity.
  - eexists. apply sentSince_app. rewrite sendEntries_trace.
    cbn [emit trace]. rewrite <- app_assoc. reflexivity.
  - eexists. apply sentSince_app. cbn. rewrite <- app_assoc. reflexivity.
Qed.

Lemma search_argument_is_trimmed_only_after_a_space_witness :
  dispatch sampleEnv 7 "/search" emptyWorld
  = handleSearch sampleEnv 7 "/search" emptyWorld
  /\ exists evs,
       sentSince emptyWorld (dispatch sampleEnv 7 "/search" emptyWorld)
       = SearchMulti "/search" :: evs.
Proof.
  destruct (search_argument_is_trimmed_only_after_a_space
              sampleEnv 7 "/search" emptyWorld eq_refl eq_refl)
    as (H1 & _ & _ & H4).
  split; [exact H1|]. exact (H4 ltac:(discriminate)).
Defined.
